(** * RuleRefinery: rule optimisation and multi-dialect export engine

    A shallow embedding of [internal/rules/optimizer.go] (package [rules]):
    the rule parser, the rule store, the filter/exclude engine, the
    deduplicator with its per-type sort policy, and the exporters.

    Go strings are byte sequences, so they are modelled by [string]
    (a list of 8-bit [ascii]); [len] is [String.length] and [<] is the
    bytewise lexicographic order [String.ltb].  Go maps are [gmap]s. *)

From Stdlib Require Import String Ascii ZArith List Bool Lia Permutation Sorted.
From Stdlib Require Import DecimalString.
From Stdlib Require OrderedTypeEx DecimalNat.
From stdpp Require Import gmap strings list fin_maps sorting.

Local Open Scope Z_scope.

(** ** The Go standard library functions the engine calls *)

Module GoStrings.

(** [strings.HasPrefix(s, prefix)] *)
Definition HasPrefix (s pre : string) : bool := String.prefix pre s.

(** [s[n:]] and [s[:n]] for an index within bounds. *)
Fixpoint sliceFrom (s : string) (n : nat) : string :=
  match n, s with
  | O, _ => s
  | S n', String _ s' => sliceFrom s' n'
  | S _, EmptyString => EmptyString
  end.

Fixpoint sliceTo (s : string) (n : nat) : string :=
  match n, s with
  | O, _ => EmptyString
  | S n', String c s' => String c (sliceTo s' n')
  | S _, EmptyString => EmptyString
  end.

(** [strings.HasSuffix(s, suffix)] *)
Definition HasSuffix (s suf : string) : bool :=
  (String.length suf <=? String.length s)%nat &&
  String.eqb (sliceFrom s (String.length s - String.length suf)) suf.

(** [strings.Index(s, substr)]: byte offset of the first occurrence,
    [-1] when there is none. *)
Fixpoint Index (s sub : string) : Z :=
  if String.prefix sub s then 0
  else match s with
       | EmptyString => -1
       | String _ s' => let i := Index s' sub in if i <? 0 then -1 else i + 1
       end.

(** [strings.Contains(s, substr)] is [Index(s, substr) >= 0]. *)
Definition Contains (s sub : string) : bool := 0 <=? Index s sub.

(** [strings.Split(s, sep)] for a one-byte separator, which is what every
    call site passes ([","] and ["-"]).  The result is never empty:
    [Split("", sep)] is [[""]]. *)
Fixpoint Split (s : string) (sep : ascii) : list string :=
  match s with
  | EmptyString => [EmptyString]
  | String c s' =>
      if Ascii.eqb c sep then EmptyString :: Split s' sep
      else match Split s' sep with
           | p :: ps => String c p :: ps
           | [] => [String c EmptyString]
           end
  end.

(** [strings.Join(elems, sep)] *)
Fixpoint Join (elems : list string) (sep : string) : string :=
  match elems with
  | [] => EmptyString
  | [e] => e
  | e :: es => e +:+ sep +:+ Join es sep
  end.

(** [strings.TrimPrefix(s, prefix)] *)
Definition TrimPrefix (s pre : string) : string :=
  if HasPrefix s pre then sliceFrom s (String.length pre) else s.

(** UTF-8 encodings of the code points for which [unicode.IsSpace] holds:
    the six ASCII ones, U+0085, U+00A0, U+1680, U+2000..U+200A, U+2028,
    U+2029, U+202F, U+205F and U+3000. *)
Definition spaceEncodings : list (list nat) :=
  [ [9]; [10]; [11]; [12]; [13]; [32];
    [194; 133]; [194; 160];
    [225; 154; 128];
    [226; 128; 128]; [226; 128; 129]; [226; 128; 130]; [226; 128; 131];
    [226; 128; 132]; [226; 128; 133]; [226; 128; 134]; [226; 128; 135];
    [226; 128; 136]; [226; 128; 137]; [226; 128; 138];
    [226; 128; 168]; [226; 128; 169]; [226; 128; 175];
    [226; 129; 159];
    [227; 128; 128] ]%nat.

Definition spaceRunes : list (list ascii) :=
  List.map (List.map ascii_of_nat) spaceEncodings.

Fixpoint stripPrefix (pre s : list ascii) : option (list ascii) :=
  match pre, s with
  | [], _ => Some s
  | p :: pre', c :: s' => if Ascii.eqb p c then stripPrefix pre' s' else None
  | _ :: _, [] => None
  end.

(** Removes one leading white-space rune, if there is one. *)
Fixpoint stripOneOf (table : list (list ascii)) (s : list ascii)
  : option (list ascii) :=
  match table with
  | [] => None
  | e :: table' =>
      match stripPrefix e s with
      | Some s' => Some s'
      | None => stripOneOf table' s
      end
  end.

Fixpoint trimWith (table : list (list ascii)) (fuel : nat) (s : list ascii)
  : list ascii :=
  match fuel with
  | O => s
  | S fuel' =>
      match stripOneOf table s with
      | Some s' => trimWith table fuel' s'
      | None => s
      end
  end.

Definition trimLeft (s : list ascii) : list ascii :=
  trimWith spaceRunes (List.length s) s.

(** Trailing runes are decoded backwards; on the reversed byte sequence
    that is a match against the reversed encodings. *)
Definition trimRight (s : list ascii) : list ascii :=
  List.rev (trimWith (List.map (@List.rev ascii) spaceRunes)
              (List.length s) (List.rev s)).

(** [strings.TrimSpace(s)]: leading and trailing Unicode white space
    removed. *)
Definition TrimSpace (s : string) : string :=
  string_of_list_ascii (trimRight (trimLeft (list_ascii_of_string s))).

Definition isASCII (c : ascii) : bool := (nat_of_ascii c <? 128)%nat.

Fixpoint allASCII (s : string) : bool :=
  match s with
  | EmptyString => true
  | String c s' => isASCII c && allASCII s'
  end.

Definition upperByte (c : ascii) : ascii :=
  let n := nat_of_ascii c in
  if ((97 <=? n) && (n <=? 122))%nat then ascii_of_nat (n - 32) else c.

Definition lowerByte (c : ascii) : ascii :=
  let n := nat_of_ascii c in
  if ((65 <=? n) && (n <=? 90))%nat then ascii_of_nat (n + 32) else c.

Fixpoint mapBytes (f : ascii -> ascii) (s : string) : string :=
  match s with
  | EmptyString => EmptyString
  | String c s' => String (f c) (mapBytes f s')
  end.

(** [strings.ToUpper(s)] and [strings.ToLower(s)]: bytewise on an
    ASCII-only string; a string with a byte of 0x80 or more goes through
    [strings.Map(unicode.ToUpper, s)], whose Unicode case tables live in
    the Go runtime and are taken as the parameter [unicodeMap]. *)
Definition ToUpper (unicodeMap : string -> string) (s : string) : string :=
  if allASCII s then mapBytes upperByte s else unicodeMap s.

Definition ToLower (unicodeMap : string -> string) (s : string) : string :=
  if allASCII s then mapBytes lowerByte s else unicodeMap s.

End GoStrings.

(** [fmt.Sscanf(input, "%d", &n)] with [n] initialised to zero, as
    [extractCIDRMask] calls it with the error dropped: white space is
    skipped (a line feed is a scan error), an optional sign and the longest
    run of bytes among [0123456789_] is taken as the token, and
    [strconv.ParseInt(token, 10, 64)] converts it.  Any error (no digit, an
    underscore in the token, a value outside the 64-bit range) leaves [n]
    at zero.  Input after the token is ignored. *)
Module GoFmt.

Fixpoint skipSpace (fuel : nat) (s : list ascii) : option (list ascii) :=
  match fuel with
  | O => Some s
  | S fuel' =>
      match s with
      | [] => Some s
      | c :: _ =>
          if Ascii.eqb c "010" then None
          else match GoStrings.stripOneOf GoStrings.spaceRunes s with
               | Some s' => skipSpace fuel' s'
               | None => Some s
               end
      end
  end.

Definition digitValue (c : ascii) : option Z :=
  let n := nat_of_ascii c in
  if ((48 <=? n) && (n <=? 57))%nat then Some (Z.of_nat (n - 48)) else None.

Definition isDigitOrUnderscore (c : ascii) : bool :=
  match digitValue c with
  | Some _ => true
  | None => Ascii.eqb c "_"
  end.

Fixpoint takeToken (s : list ascii) : list ascii :=
  match s with
  | c :: s' => if isDigitOrUnderscore c then c :: takeToken s' else []
  | [] => []
  end.

(** [strconv.ParseUint] in base 10: [None] on a byte that is no digit. *)
Fixpoint parseDigits (acc : Z) (tok : list ascii) : option Z :=
  match tok with
  | [] => Some acc
  | c :: tok' =>
      match digitValue c with
      | Some d => parseDigits (10 * acc + d) tok'
      | None => None
      end
  end.

Definition minInt64 : Z := - 2 ^ 63.
Definition maxInt64 : Z := 2 ^ 63 - 1.

Definition SscanfInt (input : string) : Z :=
  let s := list_ascii_of_string input in
  match skipSpace (List.length s) s with
  | None => 0
  | Some s1 =>
      let '(neg, s2) :=
        match s1 with
        | c :: r =>
            if Ascii.eqb c "-" then (true, r)
            else if Ascii.eqb c "+" then (false, r)
            else (false, s1)
        | [] => (false, s1)
        end in
      match takeToken s2 with
      | [] => 0
      | tok =>
          match parseDigits 0 tok with
          | None => 0
          | Some u =>
              let v := if neg then - u else u in
              if (minInt64 <=? v) && (v <=? maxInt64) then v else 0
          end
      end
  end.

End GoFmt.

(** [sort.Slice(x, less)] and [sort.Strings(x)].  The library sorts a slice
    of at most twelve elements by the insertion sort below (each element
    is swapped backwards while it is less than its predecessor) and longer
    ones by a pattern-defeating quicksort.  The model is the insertion
    sort at every length; [sorted_unique] shows that any two sorted
    arrangements of the same elements coincide when the comparator is a
    strict total order, so the model then gives what the library gives. *)
Module GoSort.

Section Sort.
Context {A : Type} (less : A -> A -> bool).

(** The sorted prefix is kept reversed: its head is the element just
    before the one being inserted. *)
Fixpoint insertBack (x : A) (prefixRev : list A) : list A :=
  match prefixRev with
  | [] => [x]
  | y :: rest =>
      if less x y then y :: insertBack x rest else x :: prefixRev
  end.

Definition Slice (x : list A) : list A :=
  List.rev (List.fold_left (fun acc e => insertBack e acc) x []).
End Sort.

Definition Strings (x : list string) : list string := Slice String.ltb x.

(** [a] may stand before [b] in a sorted slice: [b] is not less than
    [a]. *)
Definition ordered {A : Type} (less : A -> A -> bool) (a b : A) : Prop :=
  less b a = false.

End GoSort.

(** [%d] of a non-negative count. *)
Definition formatInt (n : nat) : string :=
  DecimalString.NilZero.string_of_uint (Nat.to_uint n).

Definition LF : string := String "010" EmptyString.

(** ** Data model *)

(** [type RuleType string]: any string is a value of the type; the
    constants below are the kinds the package names. *)
Abbreviation RuleType := string (only parsing).

Definition RuleTypeDomain : RuleType := "DOMAIN".
Definition RuleTypeDomainSuffix : RuleType := "DOMAIN-SUFFIX".
Definition RuleTypeDomainKeyword : RuleType := "DOMAIN-KEYWORD".
Definition RuleTypeDomainWildcard : RuleType := "DOMAIN-WILDCARD".
Definition RuleTypeDomainRegex : RuleType := "DOMAIN-REGEX".
Definition RuleTypeIPCIDR : RuleType := "IP-CIDR".
Definition RuleTypeIPCIDR6 : RuleType := "IP-CIDR6".
Definition RuleTypeSrcIPCIDR : RuleType := "SRC-IP-CIDR".
Definition RuleTypeSrcIPCIDR6 : RuleType := "SRC-IP-CIDR6".
Definition RuleTypeIPSuffix : RuleType := "IP-SUFFIX".
Definition RuleTypeSrcIPSuffix : RuleType := "SRC-IP-SUFFIX".
Definition RuleTypeGeoIP : RuleType := "GEOIP".
Definition RuleTypeSrcGeoIP : RuleType := "SRC-GEOIP".
Definition RuleTypeIPASN : RuleType := "IP-ASN".
Definition RuleTypeSrcIPASN : RuleType := "SRC-IP-ASN".
Definition RuleTypeProcessName : RuleType := "PROCESS-NAME".
Definition RuleTypeProcessPath : RuleType := "PROCESS-PATH".
Definition RuleTypeProcessNameRegex : RuleType := "PROCESS-NAME-REGEX".
Definition RuleTypeProcessPathRegex : RuleType := "PROCESS-PATH-REGEX".
Definition RuleTypeDstPort : RuleType := "DST-PORT".
Definition RuleTypeSrcPort : RuleType := "SRC-PORT".
Definition RuleTypeInPort : RuleType := "IN-PORT".
Definition RuleTypeGeoSite : RuleType := "GEOSITE".
Definition RuleTypeNetwork : RuleType := "NETWORK".
Definition RuleTypeUid : RuleType := "UID".
Definition RuleTypeInType : RuleType := "IN-TYPE".
Definition RuleTypeInUser : RuleType := "IN-USER".
Definition RuleTypeInName : RuleType := "IN-NAME".
Definition RuleTypeDSCP : RuleType := "DSCP".
Definition RuleTypeRuleSet : RuleType := "RULE-SET".
Definition RuleTypeSubRules : RuleType := "SUB-RULE".
Definition RuleTypeMatch : RuleType := "MATCH".
Definition RuleTypeFinal : RuleType := "FINAL".

(** The [const] block of the package, in its order. *)
Definition ruleTypeVocabulary : list RuleType :=
  [ RuleTypeDomain; RuleTypeDomainSuffix; RuleTypeDomainKeyword;
    RuleTypeDomainWildcard; RuleTypeDomainRegex;
    RuleTypeIPCIDR; RuleTypeIPCIDR6; RuleTypeSrcIPCIDR; RuleTypeSrcIPCIDR6;
    RuleTypeIPSuffix; RuleTypeSrcIPSuffix; RuleTypeGeoIP; RuleTypeSrcGeoIP;
    RuleTypeIPASN; RuleTypeSrcIPASN;
    RuleTypeProcessName; RuleTypeProcessPath; RuleTypeProcessNameRegex;
    RuleTypeProcessPathRegex;
    RuleTypeDstPort; RuleTypeSrcPort; RuleTypeInPort;
    RuleTypeGeoSite; RuleTypeNetwork; RuleTypeUid; RuleTypeInType;
    RuleTypeInUser; RuleTypeInName; RuleTypeDSCP; RuleTypeRuleSet;
    RuleTypeSubRules; RuleTypeMatch; RuleTypeFinal ].

Record Rule : Type := mkRule {
  Type_ : RuleType;
  Payload : string;
  Options : string
}.

Record RuleSet : Type := mkRuleSet {
  Name : string;
  Rules : gmap string (list string);
  Filters : list string;
  Excludes : list string
}.

Record Optimizer : Type := mkOptimizer {
  ruleSets : gmap string RuleSet
}.

Definition NewOptimizer : Optimizer := {| ruleSets := ∅ |}.

(** What [ParseRule] returns: [(nil, nil)], [(rule, nil)] or [(nil, err)]. *)
Inductive ParseResult : Type :=
  | Skip
  | Parsed (rule : Rule)
  | MalformedLineError (msg : string).

(** What [doublestar.Match] returns: [(true, nil)], [(false, nil)] or
    [(false, ErrBadPattern)]. *)
Inductive MatchResult : Type :=
  | Matched
  | NotMatched
  | ErrBadPattern.

(** The order in which a [range] loop visits the keys of the
    [map[string]bool] that [Deduplicate] builds.  Go leaves it unspecified,
    so each call of [Deduplicate] takes one: any enumeration of the keys
    without repetition. *)
Record MapIteration : Type := mkMapIteration {
  rangeKeys : gset string -> list string;
  rangeKeys_perm : forall keys, rangeKeys keys ≡ₚ elements keys
}.

Definition canonicalIteration : MapIteration :=
  {| rangeKeys := elements; rangeKeys_perm := fun _ => reflexivity _ |}.

Definition reversedIteration : MapIteration :=
  {| rangeKeys := fun keys => List.rev (elements keys);
     rangeKeys_perm := fun keys => Permutation_sym (Permutation_rev (elements keys)) |}.

(** A matcher for the patterns without metacharacters: the pattern matches
    its own text only.  It stands in for [doublestar.Match] where a
    concrete matcher is wanted. *)
Definition literalMatch (pattern name : string) : MatchResult :=
  if String.eqb pattern name then Matched else NotMatched.

(** The lines of the end-to-end example of the specification, and two
    lines that name one address with and without its default mask. *)
Definition exampleLines : list string :=
  ["IP-CIDR,1.2.3.0/24"; "IP-CIDR,1.2.3.0/24"; "DOMAIN-SUFFIX,.example.com"].

Definition unmaskedLines : list string :=
  ["IP-CIDR,1.2.3.4"; "IP-CIDR,1.2.3.4/32"].

(** The rule-sets the store holds once these lines are loaded under the
    name "test", the first one also as it is after [Deduplicate], and the
    rule-set of the one line "MATCH,DIRECT". *)
Definition exampleStored : RuleSet :=
  mkRuleSet "test"
    (<[RuleTypeDomainSuffix := [".example.com"]]>
       (<[RuleTypeIPCIDR := ["1.2.3.0/24"; "1.2.3.0/24"]]> ∅))
    [] [].

Definition exampleDeduped : RuleSet :=
  mkRuleSet "test"
    (<[RuleTypeDomainSuffix := [".example.com"]]>
       (<[RuleTypeIPCIDR := ["1.2.3.0/24"]]> ∅))
    [] [].

Definition unmaskedStored : RuleSet :=
  mkRuleSet "test" (<[RuleTypeIPCIDR := ["1.2.3.4"; "1.2.3.4/32"]]> ∅) [] [].

Definition matchStored : RuleSet :=
  mkRuleSet "test" (<[RuleTypeMatch := ["DIRECT"]]> ∅) [] [].

(** A store of one rule-set "test" with one sequence, and a file system of
    three rule files, the third holding the lines of the first two. *)
Definition storeOf (ruleType : RuleType) (rules : list string) : Optimizer :=
  {| ruleSets :=
       {[ "test" := mkRuleSet "test" {[ ruleType := rules ]} [] [] ]} |}.

Definition sampleFiles : gmap string (list string) :=
  <["a.txt" := ["DOMAIN,a.com"]]>
    (<["b.txt" := ["DOMAIN,b.com"]]>
       {[ "ab.txt" := ["DOMAIN,a.com"; "DOMAIN,b.com"] ]}).

(** ** The engine *)

Section Engine.

(** [strings.Map(unicode.ToUpper, _)] and [strings.Map(unicode.ToLower, _)]
    on strings that are not pure ASCII, and [doublestar.Match] of
    [github.com/bmatcuk/doublestar/v4]. *)
Variable unicodeToUpper : string -> string.
Variable unicodeToLower : string -> string.
Variable doublestarMatch : string -> string -> MatchResult.

#[local] Set Default Proof Using "Type".

Import GoStrings.

Abbreviation chars := list_ascii_of_string (only parsing).

(** No encoding of the table starts with the byte [c]. *)
Definition startsNoRune (table : list (list ascii)) (c : ascii) : bool :=
  forallb (fun e => match e with
                    | [] => false
                    | b :: _ => negb (Ascii.eqb b c)
                    end) table.

Definition anyPrefix (s : string) (prefixes : list string) : bool :=
  existsb (HasPrefix s) prefixes.

Definition anySuffix (s : string) (suffixes : list string) : bool :=
  existsb (HasSuffix s) suffixes.

(** The line once trimmed and, when it starts with ["-"], freed of that
    list marker and trimmed again; [None] when [ParseRule] has already
    returned [(nil, nil)] by then. *)
Definition stripLine (line : string) : option string :=
  let line := TrimSpace line in
  if String.eqb line "" then None
  else if anyPrefix line ["#"; ";"; "//"; "---"] then None
  else if HasPrefix line "-" then
    let line := TrimSpace (sliceFrom line 1) in
    if String.eqb line "" then None else Some line
  else Some line.

(** The [key: value] test on a line with a colon and no comma. *)
Definition isYAMLField (line : string) : bool :=
  Contains line ":" && negb (Contains line ",") &&
  (let colonIdx := Index line ":" in
   let beforeColon := TrimSpace (sliceTo line (Z.to_nat colonIdx)) in
   negb (Contains beforeColon " ") && negb (Contains beforeColon ",")).

Definition ParseRule (line : string) : ParseResult :=
  match stripLine line with
  | None => Skip
  | Some line =>
      if isYAMLField line then Skip
      else if negb (Contains line ",") then Skip
      else if anySuffix line [".list"; ".yaml"; ".txt"; ".conf"] then Skip
      else
        let parts := Split line "," in
        if (List.length parts <? 2)%nat then
          MalformedLineError ("invalid rule format: " +:+ line)
        else
          Parsed {|
            Type_ := ToUpper unicodeToUpper (TrimSpace (nth 0 parts ""));
            Payload := TrimSpace (nth 1 parts "");
            Options := if (2 <? List.length parts)%nat
                       then TrimSpace (nth 2 parts "") else ""
          |}
  end.

(** The body of the scanner loop of [LoadRuleFile] for one line. *)
Definition addLine (ruleSet : RuleSet) (text : string) : RuleSet :=
  match ParseRule text with
  | MalformedLineError _ => ruleSet
  | Skip => ruleSet
  | Parsed rule =>
      let payload :=
        if negb (String.eqb (Options rule) "")
        then Payload rule +:+ "," +:+ Options rule
        else Payload rule in
      {| Name := Name ruleSet;
         Rules := <[Type_ rule :=
                      default [] (Rules ruleSet !! Type_ rule) ++ [payload]]>
                    (Rules ruleSet);
         Filters := Filters ruleSet;
         Excludes := Excludes ruleSet |}
  end.

(** [LoadRuleFile]: the file system maps a path to the lines the scanner
    yields for that file; a path outside it fails to open, which is the
    error returned ([None]), the store being left as it was.  A scanner
    error on an over-long line is not modelled. *)
Definition LoadRuleFile (fs : gmap string (list string))
    (filePath ruleSetName : string) (o : Optimizer) : option Optimizer :=
  match fs !! filePath with
  | None => None
  | Some lines =>
      let ruleSet0 :=
        match ruleSets o !! ruleSetName with
        | Some ruleSet => ruleSet
        | None => {| Name := ruleSetName; Rules := ∅;
                     Filters := []; Excludes := [] |}
        end in
      Some {| ruleSets :=
                <[ruleSetName := fold_left addLine lines ruleSet0]>
                  (ruleSets o) |}
  end.

(** [SetRulesetFilters]: [None] is the error for an unknown rule-set. *)
Definition SetRulesetFilters (ruleSetName : string)
    (filters excludes : list string) (o : Optimizer) : option Optimizer :=
  match ruleSets o !! ruleSetName with
  | None => None
  | Some ruleSet =>
      Some {| ruleSets :=
                <[ruleSetName := {| Name := Name ruleSet;
                                    Rules := Rules ruleSet;
                                    Filters := filters;
                                    Excludes := excludes |}]>
                  (ruleSets o) |}
  end.

(** *** Sort policy *)

Definition extractCIDRMask (cidr : string) : Z :=
  let parts := Split cidr "," in
  let cidrPart := nth 0 parts "" in
  let idx := Index cidrPart "/" in
  if negb (idx =? -1) then
    GoFmt.SscanfInt (sliceFrom cidrPart (Z.to_nat (idx + 1)))
  else if Contains cidrPart ":" then 128
  else 32.

Definition normalizeCIDR (rule : string) : string :=
  let parts := Split rule "," in
  let cidrPart := nth 0 parts "" in
  if Contains cidrPart "/" then rule
  else
    let defaultMask := if Contains cidrPart ":" then "/128" else "/32" in
    Join ((cidrPart +:+ defaultMask) :: List.tl parts) ",".

(** The [less] closures of [sortRulesByType], on the two elements
    compared. *)
Definition lengthLess (a b : string) : bool :=
  if negb (String.length a =? String.length b)%nat
  then (String.length a <? String.length b)%nat
  else String.ltb a b.

Definition domainSuffixLess (a b : string) : bool :=
  let lenI := String.length a in
  let lenJ := String.length b in
  let shortI := ((2 <=? lenI) && (lenI <=? 5))%nat in
  let shortJ := ((2 <=? lenJ) && (lenJ <=? 5))%nat in
  if negb (Bool.eqb shortI shortJ) then shortI
  else if negb (lenI =? lenJ)%nat then (lenI <? lenJ)%nat
  else String.ltb a b.

Definition cidrLess (a b : string) : bool :=
  let maskI := extractCIDRMask a in
  let maskJ := extractCIDRMask b in
  if negb (maskI =? maskJ) then maskJ <? maskI
  else String.ltb a b.

Definition portStart (rule : string) : string := nth 0 (Split rule "-") "".

Definition portLess (a b : string) : bool :=
  String.ltb (portStart a) (portStart b).

Definition asnLess (a b : string) : bool :=
  String.ltb (TrimPrefix a "AS") (TrimPrefix b "AS").

Definition priorityLess (priority : list (string * Z)) (a b : string) : bool :=
  let lookup x := List.find (fun kv => String.eqb (fst kv) x) priority in
  match lookup (ToLower unicodeToLower a), lookup (ToLower unicodeToLower b) with
  | Some (_, pi), Some (_, pj) =>
      if negb (pi =? pj) then pi <? pj else String.ltb a b
  | _, _ => String.ltb a b
  end.

Definition isOneOf (ruleType : RuleType) (kinds : list RuleType) : bool :=
  existsb (String.eqb ruleType) kinds.

(** The kinds of the IP-CIDR case and of the port case of the switch. *)
Definition cidrFamily : list RuleType :=
  [RuleTypeIPCIDR; RuleTypeIPCIDR6; RuleTypeSrcIPCIDR; RuleTypeSrcIPCIDR6;
   RuleTypeIPSuffix; RuleTypeSrcIPSuffix].

Definition portKinds : list RuleType :=
  [RuleTypeDstPort; RuleTypeSrcPort; RuleTypeInPort].

(** The order of the specification for the IP-CIDR families: the longer
    mask first, equal masks in lexicographic order. *)
Definition cidrOrdered (a b : string) : Prop :=
  extractCIDRMask b < extractCIDRMask a
  \/ (extractCIDRMask a = extractCIDRMask b /\ String.leb a b = true).


(** [sortRulesByType]: the slice is sorted in place; the model returns
    the slice as it is afterwards. *)
Definition sortRulesByType (ruleType : RuleType) (rules : list string)
  : list string :=
  if isOneOf ruleType [RuleTypeDomain] then
    GoSort.Slice lengthLess rules
  else if isOneOf ruleType [RuleTypeDomainSuffix] then
    GoSort.Slice domainSuffixLess rules
  else if isOneOf ruleType [RuleTypeDomainKeyword; RuleTypeDomainWildcard] then
    GoSort.Slice lengthLess rules
  else if isOneOf ruleType [RuleTypeDomainRegex; RuleTypeProcessNameRegex;
                            RuleTypeProcessPathRegex] then
    GoSort.Slice lengthLess rules
  else if isOneOf ruleType cidrFamily then
    GoSort.Slice cidrLess (List.map normalizeCIDR rules)
  else if isOneOf ruleType [RuleTypeProcessName; RuleTypeProcessPath] then
    GoSort.Slice lengthLess rules
  else if isOneOf ruleType portKinds then
    GoSort.Slice portLess rules
  else if isOneOf ruleType [RuleTypeGeoIP; RuleTypeSrcGeoIP; RuleTypeGeoSite] then
    GoSort.Strings rules
  else if isOneOf ruleType [RuleTypeIPASN; RuleTypeSrcIPASN] then
    GoSort.Slice asnLess rules
  else if isOneOf ruleType [RuleTypeNetwork] then
    GoSort.Slice (priorityLess [("tcp", 1); ("udp", 2); ("icmp", 3)]) rules
  else if isOneOf ruleType [RuleTypeInType] then
    GoSort.Slice (priorityLess [("http", 1); ("https", 2); ("socks5", 3)]) rules
  else if isOneOf ruleType [RuleTypeUid; RuleTypeDSCP; RuleTypeInUser;
                            RuleTypeInName] then
    GoSort.Strings rules
  else
    GoSort.Strings rules.

(** The kinds whose comparator orders any two distinct strings: all but
    the IP-CIDR families (whose entries are rewritten before the sort), the
    port kinds and the IP-ASN kinds (whose comparator sees a part of the
    entry only), NETWORK and IN-TYPE. *)
Definition orderIsTotal (ruleType : RuleType) : bool :=
  negb (isOneOf ruleType cidrFamily
        || isOneOf ruleType portKinds
        || isOneOf ruleType [RuleTypeIPASN; RuleTypeSrcIPASN]
        || isOneOf ruleType [RuleTypeNetwork]
        || isOneOf ruleType [RuleTypeInType]).

(** The body of the inner loop of [Deduplicate]: the keys of the
    [uniqueRules] map, in the order the [range] loop visits them, sorted
    by the policy of the type. *)
Definition dedupRules (iter : MapIteration) (ruleType : RuleType)
    (rules : list string) : list string :=
  let uniqueRules : gset string := list_to_set rules in
  let deduped := rangeKeys iter uniqueRules in
  sortRulesByType ruleType deduped.

Definition dedupRuleSet (iter : MapIteration) (ruleSet : RuleSet) : RuleSet :=
  {| Name := Name ruleSet;
     Rules := map_imap (fun ruleType rules =>
                          Some (dedupRules iter ruleType rules))
                       (Rules ruleSet);
     Filters := Filters ruleSet;
     Excludes := Excludes ruleSet |}.

Definition Deduplicate (iter : MapIteration) (o : Optimizer) : Optimizer :=
  {| ruleSets := dedupRuleSet iter <$> ruleSets o |}.

(** *** Filter / exclude engine *)

(** [fmt.Sprintf("%s,%s", ruleType, rule)] *)
Definition fullRule (ruleType : RuleType) (rule : string) : string :=
  ruleType +:+ "," +:+ rule.

(** The inner loop over the patterns: an empty pattern is passed over, a
    pattern error counts as no match, the first match ends the loop. *)
Fixpoint matchesAny (patterns : list string) (name : string) : bool :=
  match patterns with
  | [] => false
  | pattern :: rest =>
      if String.eqb pattern "" then matchesAny rest name
      else match doublestarMatch pattern name with
           | Matched => true
           | NotMatched | ErrBadPattern => matchesAny rest name
           end
  end.

Definition applyRuleFilters (rules : list string) (ruleType : RuleType)
    (filters excludes : list string) : list string :=
  if (List.length rules =? 0)%nat then rules
  else
    let result := rules in
    let result :=
      if (0 <? List.length filters)%nat
      then List.filter (fun rule => matchesAny filters (fullRule ruleType rule))
                       result
      else result in
    let result :=
      if (0 <? List.length excludes)%nat
      then List.filter (fun rule =>
                          negb (matchesAny excludes (fullRule ruleType rule)))
                       result
      else result in
    result.

(** The survival test in the words of the specification: a rule passes
    when the filters are empty or its ["TYPE,payload"] string matches one
    of them, and it matches no exclude.  [applyRuleFilters] is compared
    with it below. *)
Definition globMatches (pattern name : string) : bool :=
  match doublestarMatch pattern name with
  | Matched => true
  | NotMatched | ErrBadPattern => false
  end.

Definition survives (ruleType : RuleType) (filters excludes : list string)
    (rule : string) : bool :=
  ((List.length filters =? 0)%nat
   || existsb (fun f => globMatches f (ruleType +:+ "," +:+ rule)) filters)
  && negb (existsb (fun e => globMatches e (ruleType +:+ "," +:+ rule))
             excludes).

(** *** Exporters *)

(** The two files an exporter writes. *)
Record Files : Type := mkFiles { yamlFile : string; listFile : string }.

Definition placeholder : string := "# 无规则内容，自动生成占位".

(** The rewrite of a DOMAIN-SUFFIX payload in [exportDomain]. *)
Definition domainSuffixEntry (rule : string) : string :=
  if HasPrefix rule "+." then rule
  else if HasPrefix rule "." then "+" +:+ rule
  else "+." +:+ rule.

Definition yamlItem (rule : string) : string :=
  "  - '" +:+ rule +:+ "'" +:+ LF.

Definition listItem (rule : string) : string := rule +:+ LF.

Definition concatMap (f : string -> string) (rules : list string) : string :=
  fold_right (fun rule acc => f rule +:+ acc) "" rules.

Definition exportDomain (ruleSet : RuleSet) : Files :=
  let domainRules :=
    match Rules ruleSet !! RuleTypeDomain with
    | Some rules =>
        applyRuleFilters rules RuleTypeDomain
          (Filters ruleSet) (Excludes ruleSet)
    | None => []
    end in
  let domainRules :=
    match Rules ruleSet !! RuleTypeDomainSuffix with
    | Some rules =>
        domainRules ++
        List.map domainSuffixEntry
          (applyRuleFilters rules RuleTypeDomainSuffix
             (Filters ruleSet) (Excludes ruleSet))
    | None => domainRules
    end in
  if (List.length domainRules =? 0)%nat then
    {| yamlFile := placeholder +:+ LF +:+ "payload: []" +:+ LF;
       listFile := placeholder +:+ LF |}
  else
    {| yamlFile := "payload:" +:+ LF +:+ concatMap yamlItem domainRules;
       listFile := concatMap listItem domainRules |}.

(** The removal of every [no-resolve] part of a rule. *)
Definition stripNoResolve (rule : string) : string :=
  Join (List.filter (fun part => negb (String.eqb (TrimSpace part) "no-resolve"))
                    (Split rule ","))
       ",".

Definition exportIPCIDR (ruleSet : RuleSet) : Files :=
  let ipTypes := [RuleTypeIPCIDR; RuleTypeIPCIDR6] in
  let ipcidrRules :=
    List.flat_map
      (fun ruleType =>
         match Rules ruleSet !! ruleType with
         | None => []
         | Some rules =>
             if (List.length rules =? 0)%nat then []
             else List.map stripNoResolve
                    (applyRuleFilters rules ruleType
                       (Filters ruleSet) (Excludes ruleSet))
         end)
      ipTypes in
  if (List.length ipcidrRules =? 0)%nat then
    {| yamlFile := placeholder +:+ LF +:+ "payload: []" +:+ LF;
       listFile := placeholder +:+ LF |}
  else
    {| yamlFile := "payload:" +:+ LF +:+ concatMap yamlItem ipcidrRules;
       listFile := concatMap listItem ipcidrRules |}.

Definition orderedTypes : list RuleType :=
  [ RuleTypeDomain; RuleTypeDomainSuffix; RuleTypeDomainKeyword;
    RuleTypeDomainWildcard; RuleTypeDomainRegex;
    RuleTypeIPCIDR; RuleTypeIPCIDR6; RuleTypeSrcIPCIDR; RuleTypeSrcIPCIDR6;
    RuleTypeIPSuffix; RuleTypeSrcIPSuffix; RuleTypeIPASN; RuleTypeSrcIPASN;
    RuleTypeGeoIP; RuleTypeSrcGeoIP; RuleTypeGeoSite;
    RuleTypeProcessName; RuleTypeProcessPath; RuleTypeProcessNameRegex;
    RuleTypeProcessPathRegex;
    RuleTypeDstPort; RuleTypeSrcPort; RuleTypeInPort;
    RuleTypeNetwork; RuleTypeUid; RuleTypeInType; RuleTypeInUser;
    RuleTypeInName; RuleTypeDSCP;
    RuleTypeRuleSet; RuleTypeSubRules ].

Definition domainListTypes : list RuleType :=
  [RuleTypeDomain; RuleTypeDomainSuffix].

Definition ipcidrListTypes : list RuleType :=
  [RuleTypeIPCIDR; RuleTypeIPCIDR6].

(** The header comments, the same lines in both files. *)
Definition classicalHeader (name : string) (includeAll withNoResolve : bool)
  : string :=
  (if includeAll then
     "# " +:+ name +:+ " - Classical Format (All Rules)" +:+ LF +:+
     "# Includes all rule types" +:+ LF
   else
     "# " +:+ name +:+ " - Classical Format (Other Rules)" +:+ LF +:+
     "# Excludes rules that can use domain.list (DOMAIN/DOMAIN-SUFFIX)" +:+ LF +:+
     "# and ipcidr.list (IP-CIDR/IP-CIDR6)" +:+ LF) +:+
  (if withNoResolve then
     "# IP-CIDR rules include 'no-resolve' parameter" +:+ LF
   else
     "# IP-CIDR rules exclude 'no-resolve' parameter" +:+ LF) +:+
  "# Rules are optimized and sorted for best performance" +:+ LF.

(** The [processedRule] of a rule of a type, for one value of
    [withNoResolve]. *)
Definition processRule (ruleType : RuleType) (withNoResolve : bool)
    (rule : string) : string :=
  if String.eqb ruleType RuleTypeIPCIDR || String.eqb ruleType RuleTypeIPCIDR6
  then
    if withNoResolve then
      if negb (Contains rule "no-resolve") then rule +:+ ",no-resolve"
      else rule
    else stripNoResolve rule
  else rule.

(** The rules of one type that [exportClassical] writes, after the kind
    exclusion and the filters; empty when the type is passed over. *)
Definition classicalSection (ruleSet : RuleSet)
    (includeAll withNoResolve : bool) (ruleType : RuleType) : list string :=
  match Rules ruleSet !! ruleType with
  | None => []
  | Some rules =>
      if (List.length rules =? 0)%nat then []
      else if negb includeAll && isOneOf ruleType domainListTypes then []
      else if negb includeAll && isOneOf ruleType ipcidrListTypes
              && negb withNoResolve then []
      else applyRuleFilters rules ruleType
             (Filters ruleSet) (Excludes ruleSet)
  end.

Definition classicalYAMLSection (withNoResolve : bool) (ruleType : RuleType)
    (filtered : list string) : string :=
  if (List.length filtered =? 0)%nat then ""
  else
    LF +:+ "  # " +:+ ruleType +:+ " (" +:+
    formatInt (List.length filtered) +:+ " rules)" +:+ LF +:+
    concatMap (fun rule =>
                 yamlItem (ruleType +:+ "," +:+
                           processRule ruleType withNoResolve rule))
              filtered.

Definition classicalListSection (withNoResolve : bool) (ruleType : RuleType)
    (filtered : list string) : string :=
  if (List.length filtered =? 0)%nat then ""
  else
    LF +:+ "# " +:+ ruleType +:+ " (" +:+
    formatInt (List.length filtered) +:+ " rules)" +:+ LF +:+
    concatMap (fun rule =>
                 listItem (ruleType +:+ "," +:+
                           processRule ruleType withNoResolve rule))
              filtered.

Definition exportClassical (ruleSet : RuleSet)
    (includeAll withNoResolve : bool) : Files :=
  let sections :=
    List.map (fun ruleType =>
                (ruleType,
                 classicalSection ruleSet includeAll withNoResolve ruleType))
             orderedTypes in
  let totalRules :=
    fold_left (fun n sec => (n + List.length (snd sec))%nat) sections 0%nat in
  let header := classicalHeader (Name ruleSet) includeAll withNoResolve in
  {| yamlFile :=
       header +:+ "payload:" +:+ LF +:+
       concatMap (fun x => x)
         (List.map (fun sec => classicalYAMLSection withNoResolve (fst sec) (snd sec))
                   sections) +:+
       (if (totalRules =? 0)%nat then "  " +:+ placeholder +:+ LF else "");
     listFile :=
       header +:+
       concatMap (fun x => x)
         (List.map (fun sec => classicalListSection withNoResolve (fst sec) (snd sec))
                   sections) +:+
       (if (totalRules =? 0)%nat then placeholder +:+ LF else "") |}.

(** A line of a list file that is a comment or is blank. *)
Definition commentOrBlank (line : string) : bool :=
  String.eqb line "" || HasPrefix line "#".

(** The twelve files [Export] writes into the directory of a rule-set,
    by file name.  Directory and file creation always succeed here: the
    file-system errors [Export] propagates are outside the model. *)
Definition exportRuleSet (ruleSet : RuleSet) : gmap string string :=
  let name := Name ruleSet in
  let put (base : string) (files : Files) (m : gmap string string) :=
    <[name +:+ base +:+ ".list" := listFile files]>
      (<[name +:+ base +:+ ".yaml" := yamlFile files]> m) in
  put "_classical_all_no_resolve" (exportClassical ruleSet true true)
    (put "_classical_all" (exportClassical ruleSet true false)
       (put "_classical_no_resolve" (exportClassical ruleSet false true)
          (put "_classical" (exportClassical ruleSet false false)
             (put "_ipcidr" (exportIPCIDR ruleSet)
                (put "_domain" (exportDomain ruleSet) ∅))))).

(** [Export]: for every rule-set, the files of its directory. *)
Definition Export (o : Optimizer) : gmap string (gmap string string) :=
  exportRuleSet <$> ruleSets o.

(** [GetStatistics]: for every rule-set and every type stored in it, the
    length of the sequence. *)
Definition GetStatistics (o : Optimizer) : gmap string (gmap string Z) :=
  (fun ruleSet =>
     (fun rules => Z.of_nat (List.length rules)) <$> Rules ruleSet)
  <$> ruleSets o.

(** [processRulesets] of package [loader], the caller of the optimizer.
    The two maps it ranges over are given as the lists of their entries in
    the order the loops visit them.  A file that fails to open is passed
    over, and so is a configured rule-set that the optimizer does not
    know. *)
Definition loadRulesetFiles (fs : gmap string (list string))
    (o : Optimizer) (entry : string * list string) : Optimizer :=
  fold_left
    (fun o filePath =>
       match LoadRuleFile fs filePath (fst entry) o with
       | Some o' => o'
       | None => o
       end)
    (snd entry) o.

Definition configureRuleset (o : Optimizer)
    (entry : string * (list string * list string)) : Optimizer :=
  match SetRulesetFilters (fst entry) (fst (snd entry)) (snd (snd entry)) o with
  | Some o' => o'
  | None => o
  end.

Definition optimizerOf (fs : gmap string (list string))
    (rulesetFiles : list (string * list string))
    (classifiedRules : list (string * (list string * list string)))
  : Optimizer :=
  fold_left configureRuleset classifiedRules
    (fold_left (loadRulesetFiles fs) rulesetFiles NewOptimizer).

Definition processRulesets (iter : MapIteration)
    (fs : gmap string (list string))
    (rulesetFiles : list (string * list string))
    (classifiedRules : list (string * (list string * list string)))
  : gmap string (gmap string string) :=
  Export (Deduplicate iter (optimizerOf fs rulesetFiles classifiedRules)).

(** A rule-set with its two pattern lists replaced, and the rule-set that
    [LoadRuleFile] creates for a new name. *)
Definition withFilters (filters excludes : list string) (ruleSet : RuleSet)
  : RuleSet :=
  {| Name := Name ruleSet; Rules := Rules ruleSet;
     Filters := filters; Excludes := excludes |}.

Definition freshRuleSet (name : string) : RuleSet :=
  {| Name := name; Rules := ∅; Filters := []; Excludes := [] |}.

(** The orders of the sort policy in the words of the specification:
    ascending length then lexicographic; the suffixes of length 2 to 5
    first, then ascending length, then lexicographic. *)
Definition lengthOrdered (a b : string) : Prop :=
  (String.length a < String.length b)%nat
  \/ (String.length a = String.length b /\ String.leb a b = true).

Definition isShortSuffix (s : string) : bool :=
  ((2 <=? String.length s) && (String.length s <=? 5))%nat.

Definition suffixOrdered (a b : string) : Prop :=
  (isShortSuffix a = true /\ isShortSuffix b = false)
  \/ (isShortSuffix a = isShortSuffix b /\ lengthOrdered a b).

(** The kinds sorted by length, and the entries of the store that have at
    most one comma. *)
Definition lengthKinds : list RuleType :=
  [RuleTypeDomain; RuleTypeDomainKeyword; RuleTypeDomainWildcard;
   RuleTypeDomainRegex; RuleTypeProcessNameRegex; RuleTypeProcessPathRegex;
   RuleTypeProcessName; RuleTypeProcessPath].

(** The kinds that reach a plain [sort.Strings]: those of the two
    lexicographic cases of the switch and every kind the switch does not
    name (its default case). *)
Definition lexicographicKind (ruleType : RuleType) : bool :=
  negb (isOneOf ruleType lengthKinds
        || isOneOf ruleType [RuleTypeDomainSuffix]
        || negb (orderIsTotal ruleType)).

Definition asnKinds : list RuleType := [RuleTypeIPASN; RuleTypeSrcIPASN].

Definition atMostOneComma (entry : string) : Prop :=
  (List.length (Split entry ",") <= 2)%nat.

(** Every entry of every sequence of the store satisfies [P]. *)
Definition entriesHold (P : string -> Prop) (o : Optimizer) : Prop :=
  forall name ruleSet ruleType rules entry,
    ruleSets o !! name = Some ruleSet ->
    Rules ruleSet !! ruleType = Some rules ->
    In entry rules -> P entry.


(** Case analysis on the comparisons of natural numbers in a comparator. *)
Ltac order_cases :=
  cbv zeta;
  repeat match goal with
         | |- context [(?x =? ?y)%nat] => destruct (Nat.eqb_spec x y)
         | |- context [(?x <? ?y)%nat] => destruct (Nat.ltb_spec x y)
         | |- context [(?x <=? ?y)%nat] => destruct (Nat.leb_spec x y)
         end;
  cbn [negb andb Bool.eqb];
  try (intros; first [congruence | lia]).

Example ex_split : GoStrings.Split "a,b,,c" "," = ["a"; "b"; ""; "c"].
Proof. reflexivity. Qed.
Example ex_scan : GoFmt.SscanfInt " -24abc" = -24.
Proof. reflexivity. Qed.
Example ex_scan2 : GoFmt.SscanfInt "1_0" = 0.
Proof. reflexivity. Qed.
Example ex_scan3 : GoFmt.SscanfInt "9223372036854775808" = 0.
Proof. reflexivity. Qed.
Example ex_sort : GoSort.Strings ["b"; "a"; "c"; "ab"] = ["a"; "ab"; "b"; "c"].
Proof. reflexivity. Qed.

(** ** Facts about the library models *)

(** *** The bytewise order on strings *)

Lemma ltb_lt (a b : string) :
  String.ltb a b = true <-> OrderedTypeEx.String_as_OT.lt a b.
Proof.
  unfold String.ltb. rewrite <- OrderedTypeEx.String_as_OT.cmp_lt.
  unfold OrderedTypeEx.String_as_OT.cmp.
  destruct (String.compare a b); split; congruence.
Qed.

Lemma ltb_trans (a b c : string) :
  String.ltb a b = true -> String.ltb b c = true -> String.ltb a c = true.
Proof.
  rewrite !ltb_lt. apply OrderedTypeEx.String_as_OT.lt_trans.
Qed.

Lemma ltb_irrefl (a : string) : String.ltb a a = false.
Proof.
  destruct (String.ltb a a) eqn:E; [|reflexivity].
  apply ltb_lt in E. exfalso.
  by apply (OrderedTypeEx.String_as_OT.lt_not_eq a a).
Qed.

Lemma ltb_asym (a b : string) :
  String.ltb a b = true -> String.ltb b a = false.
Proof.
  intros H. destruct (String.ltb b a) eqn:E; [|reflexivity].
  pose proof (ltb_trans _ _ _ H E) as Haa. by rewrite ltb_irrefl in Haa.
Qed.

Lemma ltb_total (a b : string) :
  String.ltb a b = false -> String.ltb b a = false -> a = b.
Proof.
  unfold String.ltb. rewrite (String.compare_antisym b a).
  destruct (String.compare a b) eqn:E; simpl; try discriminate.
  intros _ _. by apply String.compare_eq_iff.
Qed.

Lemma ltb_ntrans (a b c : string) :
  String.ltb a b = false -> String.ltb b c = false -> String.ltb a c = false.
Proof.
  intros Hab Hbc. destruct (String.ltb a c) eqn:Hac; [|reflexivity].
  destruct (String.ltb c b) eqn:Hcb.
  - by rewrite (ltb_trans _ _ _ Hac Hcb) in Hab.
  - pose proof (ltb_total _ _ Hbc Hcb) as ->. congruence.
Qed.

(** *** The insertion sort *)

Section SortFacts.
Context {A : Type} (less : A -> A -> bool).

Lemma insertBack_perm (x : A) (l : list A) :
  GoSort.insertBack less x l ≡ₚ x :: l.
Proof.
  induction l as [|y l IH]; simpl; [done|].
  destruct (less x y); [|done].
  rewrite IH. apply perm_swap.
Qed.

Lemma fold_insertBack_perm (l acc : list A) :
  fold_left (fun acc e => GoSort.insertBack less e acc) l acc ≡ₚ l ++ acc.
Proof.
  revert acc. induction l as [|x l IH]; intros acc; simpl; [done|].
  rewrite IH, insertBack_perm. by rewrite Permutation_middle.
Qed.

(** Sorting rearranges the slice and does nothing else. *)
Lemma Slice_perm (l : list A) : GoSort.Slice less l ≡ₚ l.
Proof.
  unfold GoSort.Slice. rewrite <- Permutation_rev, fold_insertBack_perm.
  by rewrite app_nil_r.
Qed.

Hypothesis less_asym : forall x y, less x y = true -> less y x = false.
Hypothesis less_ntrans :
  forall x y z, less x y = false -> less y z = false -> less x z = false.

Lemma insertBack_sorted (x : A) (l : list A) :
  StronglySorted (fun y z => less y z = false) l ->
  StronglySorted (fun y z => less y z = false) (GoSort.insertBack less x l).
Proof using less_asym less_ntrans.
  induction 1 as [|y l Hl IH Hy]; simpl.
  - repeat constructor.
  - destruct (less x y) eqn:Hxy.
    + constructor; [exact IH|].
      rewrite insertBack_perm. constructor; [by apply less_asym|exact Hy].
    + constructor; [by constructor|].
      constructor; [exact Hxy|].
      eapply Forall_impl; [exact Hy|]. intros z Hz. simpl in Hz.
      by eapply less_ntrans.
Qed.

Lemma fold_insertBack_sorted (l acc : list A) :
  StronglySorted (fun y z => less y z = false) acc ->
  StronglySorted (fun y z => less y z = false)
    (fold_left (fun acc e => GoSort.insertBack less e acc) l acc).
Proof using less_asym less_ntrans.
  revert acc. induction l as [|x l IH]; intros acc Hacc; simpl; [done|].
  apply IH. by apply insertBack_sorted.
Qed.

(** With an asymmetric comparator whose complement is transitive, no
    element of the sorted slice is less than an earlier one. *)
Lemma Slice_sorted (l : list A) :
  StronglySorted (GoSort.ordered less) (GoSort.Slice less l).
Proof using less_asym less_ntrans.
  unfold GoSort.Slice. rewrite rev_alt. change (rev_append ?l []) with (reverse l).
  assert (Transitive (GoSort.ordered less)) as Htr.
  { intros a b c Hab Hbc. unfold GoSort.ordered in *. by eapply less_ntrans. }
  apply Sorted_StronglySorted; [exact Htr|].
  apply (Sorted_reverse (fun y z => less y z = false)).
  apply StronglySorted_Sorted, fold_insertBack_sorted. constructor.
Qed.

Hypothesis less_total : forall x y, less x y = false -> less y x = false -> x = y.

(** A strict total order leaves one sorted arrangement only. *)
Lemma sorted_unique (l1 l2 : list A) :
  StronglySorted (GoSort.ordered less) l1 ->
  StronglySorted (GoSort.ordered less) l2 ->
  l1 ≡ₚ l2 -> l1 = l2.
Proof using less_total.
  apply StronglySorted_unique.
  intros a b Hab Hba. unfold GoSort.ordered in *. by apply less_total.
Qed.

Lemma Slice_unique (l out : list A) :
  StronglySorted (GoSort.ordered less) out -> out ≡ₚ l ->
  GoSort.Slice less l = out.
Proof using less_asym less_ntrans less_total.
  intros Hs Hp. apply sorted_unique; [apply Slice_sorted|exact Hs|].
  by rewrite Slice_perm, Hp.
Qed.
End SortFacts.

(** *** String helpers *)

Lemma HasPrefix_spec (s pre : string) :
  GoStrings.HasPrefix s pre = true <-> exists t, s = pre +:+ t.
Proof.
  unfold GoStrings.HasPrefix. revert s.
  induction pre as [|a pre IH]; intros s.
  - destruct s; simpl; split; eauto.
  - destruct s as [|b s]; simpl.
    + split; [discriminate|]. intros [t Ht]. discriminate.
    + destruct (ascii_dec a b) as [->|Hne].
      * rewrite IH. split; intros [t Ht]; exists t; [by rewrite Ht|].
        by injection Ht.
      * split; [discriminate|]. intros [t Ht]. injection Ht. congruence.
Qed.

Lemma chars_app (a b : string) : chars (a +:+ b) = chars a ++ chars b.
Proof. induction a as [|c a IH]; simpl; [reflexivity|by rewrite IH]. Qed.

Lemma prefix_empty (s : string) : String.prefix "" s = true.
Proof. by destruct s. Qed.

Lemma Index_nil (sub : string) :
  Index "" sub = if String.prefix sub "" then 0 else -1.
Proof. reflexivity. Qed.

Lemma Index_cons (c : ascii) (s sub : string) :
  Index (String c s) sub =
  if String.prefix sub (String c s) then 0
  else if Index s sub <? 0 then -1 else Index s sub + 1.
Proof. reflexivity. Qed.

Lemma Index_range (s sub : string) : Index s sub = -1 \/ 0 <= Index s sub.
Proof.
  induction s as [|c s IH].
  - rewrite Index_nil. destruct (String.prefix sub ""); lia.
  - rewrite Index_cons. destruct (String.prefix sub (String c s)); [lia|].
    destruct (Z.ltb_spec (Index s sub) 0); lia.
Qed.

(** [Contains] with a one-byte needle is membership of the byte. *)
Lemma Contains_char (s : string) (c : ascii) :
  Contains s (String c "") = true <-> In c (chars s).
Proof.
  unfold Contains. induction s as [|d s IH].
  - rewrite Index_nil. simpl. split; [discriminate|intros []].
  - rewrite Index_cons. cbn [String.prefix list_ascii_of_string In].
    destruct (ascii_dec c d) as [->|Hne].
    + rewrite prefix_empty. simpl. split; [intros _; by left|reflexivity].
    + destruct (Z.ltb_spec (Index s (String c "")) 0) as [Hlt|Hge].
      * split; [discriminate|]. intros [?|Hin]; [congruence|].
        apply IH in Hin. apply Z.leb_le in Hin. lia.
      * split; [|intros _; apply Z.leb_le; lia].
        intros _. right. apply IH. by apply Z.leb_le.
Qed.

Lemma Contains_char_false (s : string) (c : ascii) :
  Contains s (String c "") = false <-> ~ In c (chars s).
Proof. rewrite <- Contains_char. by destruct (Contains s (String c "")). Qed.

Lemma Split_nonempty (s : string) (sep : ascii) : Split s sep <> [].
Proof.
  destruct s as [|c s]; simpl; [done|].
  destruct (Ascii.eqb c sep); [done|]. by destruct (Split s sep).
Qed.

Lemma Split_no_sep (s : string) (sep : ascii) :
  ~ In sep (chars s) -> Split s sep = [s].
Proof.
  induction s as [|c s IH]; simpl; intros Hn; [reflexivity|].
  destruct (Ascii.eqb_spec c sep) as [->|_]; [exfalso; apply Hn; by left|].
  rewrite IH by (intros H; apply Hn; by right). reflexivity.
Qed.

(** The first part ends at the first separator. *)
Lemma Split_app (a b : string) (sep : ascii) :
  ~ In sep (chars a) -> Split (a +:+ String sep b) sep = a :: Split b sep.
Proof.
  induction a as [|c a IH]; simpl; intros Hn.
  - by rewrite Ascii.eqb_refl.
  - destruct (Ascii.eqb_spec c sep) as [->|_]; [exfalso; apply Hn; by left|].
    rewrite IH by (intros H; apply Hn; by right). reflexivity.
Qed.

(** A string with the separator in it falls into the text before its first
    separator and the rest. *)
Lemma first_sep (s : string) (sep : ascii) :
  In sep (chars s) ->
  exists a b, s = a +:+ String sep b /\ ~ In sep (chars a).
Proof.
  induction s as [|c s IH]; simpl; [intros []|]. intros Hin.
  destruct (ascii_dec c sep) as [->|Hne].
  - exists "", s. split; [reflexivity|]. simpl. intros [].
  - destruct IH as (a & b & -> & Ha); [destruct Hin; congruence|].
    exists (String c a), b. split; [reflexivity|]. simpl.
    intros [?|?]; [by apply Hne|by apply Ha].
Qed.

Lemma Split_length (s : string) (sep : ascii) :
  In sep (chars s) -> (2 <= List.length (Split s sep))%nat.
Proof.
  intros Hin. destruct (first_sep s sep Hin) as (a & b & -> & Ha).
  rewrite Split_app by done. simpl.
  pose proof (Split_nonempty b sep). destruct (Split b sep); [done|simpl; lia].
Qed.

Lemma Join_cons (e : string) (es : list string) (sep : string) :
  es <> [] -> Join (e :: es) sep = e +:+ sep +:+ Join es sep.
Proof. destruct es; [done|reflexivity]. Qed.

Lemma Join_Split (s : string) (sep : ascii) :
  Join (Split s sep) (String sep "") = s.
Proof.
  induction s as [|c s IH]; simpl; [reflexivity|].
  destruct (Ascii.eqb_spec c sep) as [->|_].
  - rewrite Join_cons by apply Split_nonempty. by rewrite IH.
  - pose proof (Split_nonempty s sep) as Hne.
    destruct (Split s sep) as [|p ps]; [done|].
    destruct ps as [|q ps]; simpl in *; [by rewrite IH|].
    by rewrite <- IH.
Qed.

Lemma app_cons (c : ascii) (a b : string) :
  String c a +:+ b = String c (a +:+ b).
Proof. reflexivity. Qed.

Lemma app_assoc_string (a b c : string) : (a +:+ b) +:+ c = a +:+ b +:+ c.
Proof.
  induction a as [|x a IH]; [reflexivity|]. by rewrite !app_cons, IH.
Qed.

Lemma app_empty_r (a : string) : a +:+ "" = a.
Proof.
  induction a as [|x a IH]; [reflexivity|]. by rewrite app_cons, IH.
Qed.

(** ** The filter / exclude engine *)

Lemma fullRule_nonempty (ruleType : RuleType) (rule : string) :
  fullRule ruleType rule <> "".
Proof. unfold fullRule. destruct ruleType; discriminate. Qed.

Lemma matchesAny_all_empty (patterns : list string) (name : string) :
  Forall (fun p => p = "") patterns -> matchesAny patterns name = false.
Proof.
  induction 1 as [|p ps -> _ IH]; simpl; [reflexivity|exact IH].
Qed.

(** Passing over the empty patterns changes nothing as long as the empty
    pattern matches no non-empty name. *)
Lemma matchesAny_existsb (patterns : list string) (name : string) :
  (name <> "" -> doublestarMatch "" name <> Matched) -> name <> "" ->
  matchesAny patterns name = existsb (fun p => globMatches p name) patterns.
Proof.
  intros Hempty Hname. induction patterns as [|p ps IH]; simpl; [reflexivity|].
  unfold globMatches at 1. destruct (String.eqb_spec p "") as [->|_].
  - rewrite IH. specialize (Hempty Hname).
    by destruct (doublestarMatch "" name).
  - rewrite IH. by destruct (doublestarMatch p name).
Qed.

Lemma filter_all_true {A : Type} (f : A -> bool) (l : list A) :
  (forall x, In x l -> f x = true) -> List.filter f l = l.
Proof.
  induction l as [|x l IH]; simpl; intros H; [reflexivity|].
  rewrite (H x (or_introl eq_refl)). f_equal. apply IH. auto.
Qed.

Lemma filter_filter_andb {A : Type} (f g : A -> bool) (l : list A) :
  List.filter g (List.filter f l) = List.filter (fun x => f x && g x) l.
Proof.
  induction l as [|x l IH]; simpl; [reflexivity|].
  destruct (f x); simpl; [destruct (g x)|]; by rewrite IH.
Qed.

Lemma length_zero_nil {A : Type} (l : list A) :
  (List.length l =? 0)%nat = true <-> l = [].
Proof. destruct l; simpl; split; congruence. Qed.

Lemma applyRuleFilters_filter (rules : list string) (ruleType : RuleType)
    (filters excludes : list string) :
  applyRuleFilters rules ruleType filters excludes =
  List.filter
    (fun rule =>
       ((List.length filters =? 0)%nat
        || matchesAny filters (fullRule ruleType rule))
       && negb (matchesAny excludes (fullRule ruleType rule)))
    rules.
Proof.
  unfold applyRuleFilters.
  destruct rules as [|r rules]; [reflexivity|].
  change (List.length (r :: rules) =? 0)%nat with false. cbv iota.
  generalize (r :: rules) as l. intros l.
  destruct filters as [|f fs], excludes as [|e es];
    unfold Nat.ltb; cbn [Nat.leb Nat.eqb List.length orb].
  - symmetry. by apply filter_all_true.
  - apply filter_ext. intros a. reflexivity.
  - apply filter_ext. intros a.
    change (matchesAny [] _) with false. simpl. by rewrite andb_true_r.
  - rewrite filter_filter_andb. apply filter_ext. intros a. reflexivity.
Qed.

(** C8: the rewrite of a domain-suffix payload for the domain dialect is
    defined on every string; a value that starts with "+." is kept, a value
    that starts with "." gets "+" in front, any other value gets "+." in
    front; the result always starts with "+.", and rewriting twice is
    rewriting once.  The three payloads of the specification come out as
    "+.x.com". *)
Theorem domainSuffixEntry_total_idempotent (s : string) :
  (forall t, domainSuffixEntry ("+." +:+ t) = "+." +:+ t) /\
  (forall t, domainSuffixEntry ("." +:+ t) = "+" +:+ "." +:+ t) /\
  (GoStrings.HasPrefix s "+." = false -> GoStrings.HasPrefix s "." = false ->
   domainSuffixEntry s = "+." +:+ s) /\
  (exists t, domainSuffixEntry s = "+." +:+ t) /\
  domainSuffixEntry (domainSuffixEntry s) = domainSuffixEntry s /\
  domainSuffixEntry ".x.com" = "+.x.com" /\
  domainSuffixEntry "x.com" = "+.x.com" /\
  domainSuffixEntry "+.x.com" = "+.x.com".
Proof.
  assert (forall t, domainSuffixEntry ("+." +:+ t) = "+." +:+ t) as Hplus.
  { intros t. unfold domainSuffixEntry.
    by rewrite (proj2 (HasPrefix_spec _ "+.") (ex_intro _ t eq_refl)). }
  assert (forall t, domainSuffixEntry ("." +:+ t) = "+" +:+ "." +:+ t) as Hdot.
  { intros t. unfold domainSuffixEntry.
    rewrite (proj2 (HasPrefix_spec _ ".") (ex_intro _ t eq_refl)).
    destruct (GoStrings.HasPrefix ("." +:+ t) "+.") eqn:Hp; [|reflexivity].
    apply HasPrefix_spec in Hp. destruct Hp as [u Hu]. discriminate. }
  assert (exists t, domainSuffixEntry s = "+." +:+ t) as Hshape.
  { unfold domainSuffixEntry.
    destruct (GoStrings.HasPrefix s "+.") eqn:Hp.
    { apply HasPrefix_spec in Hp. exact Hp. }
    destruct (GoStrings.HasPrefix s ".") eqn:Hq.
    - apply HasPrefix_spec in Hq. destruct Hq as [t ->]. by exists t.
    - by exists s. }
  repeat split; try done.
  - intros H1 H2. unfold domainSuffixEntry. by rewrite H1, H2.
  - destruct Hshape as [t ->]. apply Hplus.
Qed.

(** C10: when the filter list is not empty and every pattern in it is the
    empty string, no rule passes: the empty patterns are passed over, never
    matched, and the white-list stage is active all the same.  (For the
    empty rule list the result is empty as well.) *)
Theorem applyRuleFilters_only_empty_filters (rules : list string)
    (ruleType : RuleType) (filters excludes : list string) :
  filters <> [] -> Forall (fun p => p = "") filters ->
  applyRuleFilters rules ruleType filters excludes = [].
Proof.
  intros Hne Hall. rewrite applyRuleFilters_filter.
  destruct filters as [|f fs]; [done|].
  induction rules as [|r rules IH]; [reflexivity|].
  cbn [List.filter]. rewrite (matchesAny_all_empty (f :: fs) _ Hall).
  exact IH.
Qed.

(** C7: white list, then black list, with everything allowed when there is
    no white list.  Provided the empty pattern matches no non-empty name
    (which is how [doublestar.Match] treats it), the result is the rule
    list, in its order, restricted to the rules that survive: those whose
    "TYPE,payload" string (the type, a comma, the entry) matches some
    filter pattern (or any rule, when the filters are empty) and matches
    no exclude pattern.  A rule that matches both a filter and an exclude
    is not in the result.  For one rule and one pattern: a filter keeps
    the rule exactly when the pattern matches that string, an exclude
    drops it exactly then. *)
Theorem applyRuleFilters_whitelist_then_blacklist :
  (forall name, name <> "" -> doublestarMatch "" name <> Matched) ->
  forall (rules : list string) (ruleType : RuleType)
         (filters excludes : list string),
    applyRuleFilters rules ruleType filters excludes =
      List.filter (survives ruleType filters excludes) rules
    /\ (forall rule,
          In rule (applyRuleFilters rules ruleType filters excludes) <->
          In rule rules
          /\ (filters = []
              \/ exists f, In f filters
                   /\ doublestarMatch f (ruleType +:+ "," +:+ rule) = Matched)
          /\ ~ (exists e, In e excludes
                   /\ doublestarMatch e (ruleType +:+ "," +:+ rule) = Matched))
    /\ (forall rule f e,
          In f filters -> In e excludes ->
          doublestarMatch f (ruleType +:+ "," +:+ rule) = Matched ->
          doublestarMatch e (ruleType +:+ "," +:+ rule) = Matched ->
          ~ In rule (applyRuleFilters rules ruleType filters excludes))
    /\ (forall rule f,
          applyRuleFilters [rule] ruleType [f] []
          = match doublestarMatch f (ruleType +:+ "," +:+ rule) with
            | Matched => [rule]
            | NotMatched | ErrBadPattern => []
            end)
    /\ (forall rule e,
          applyRuleFilters [rule] ruleType [] [e]
          = match doublestarMatch e (ruleType +:+ "," +:+ rule) with
            | Matched => []
            | NotMatched | ErrBadPattern => [rule]
            end).
Proof.
  intros Hempty rules ruleType filters excludes.
  assert (forall rules filters excludes,
            applyRuleFilters rules ruleType filters excludes =
            List.filter (survives ruleType filters excludes) rules) as Hfilter.
  { clear rules filters excludes. intros rules filters excludes.
    rewrite applyRuleFilters_filter. apply filter_ext. intros rule.
    unfold survives.
    by rewrite !matchesAny_existsb by (auto using fullRule_nonempty). }
  assert (forall ps rule,
            matchesAny ps (fullRule ruleType rule) = true <->
            exists p, In p ps /\ doublestarMatch p (fullRule ruleType rule) = Matched)
    as Hany.
  { intros ps rule.
    rewrite matchesAny_existsb by (auto using fullRule_nonempty).
    rewrite existsb_exists. unfold globMatches.
    split; intros [p [Hin Hm]]; exists p; split; auto;
      by destruct (doublestarMatch p (fullRule ruleType rule)). }
  assert (forall rule,
            In rule (applyRuleFilters rules ruleType filters excludes) <->
            In rule rules
            /\ (filters = []
                \/ exists f, In f filters
                     /\ doublestarMatch f (fullRule ruleType rule) = Matched)
            /\ ~ (exists e, In e excludes
                     /\ doublestarMatch e (fullRule ruleType rule) = Matched))
    as Hiff.
  { intros rule. rewrite applyRuleFilters_filter, filter_In.
    rewrite andb_true_iff, orb_true_iff, negb_true_iff, length_zero_nil.
    rewrite <- not_true_iff_false, !Hany. reflexivity. }
  split; [apply Hfilter|]. split; [exact Hiff|]. split; [|split].
  - intros rule f e Hf He Hmf Hme Hin. apply Hiff in Hin.
    destruct Hin as (_ & _ & Hno). apply Hno. eauto.
  - intros rule f. rewrite Hfilter. unfold survives, globMatches.
    cbn [List.filter List.length Nat.eqb existsb orb negb andb].
    by destruct (doublestarMatch f (ruleType +:+ "," +:+ rule)).
  - intros rule e. rewrite Hfilter. unfold survives, globMatches.
    cbn [List.filter List.length Nat.eqb existsb orb negb andb].
    by destruct (doublestarMatch e (ruleType +:+ "," +:+ rule)).
Qed.

(** ** The rule parser *)

Lemma stripOneOf_stop (table : list (list ascii)) (c : ascii) (l : list ascii) :
  startsNoRune table c = true -> stripOneOf table (c :: l) = None.
Proof.
  induction table as [|e table IH]; simpl; [reflexivity|].
  destruct e as [|b e]; [discriminate|]. simpl.
  destruct (Ascii.eqb b c); simpl; [discriminate|]. exact IH.
Qed.

Lemma trimWith_stop (table : list (list ascii)) (fuel : nat) (c : ascii)
    (l : list ascii) :
  startsNoRune table c = true -> trimWith table fuel (c :: l) = c :: l.
Proof.
  intros H. destruct fuel; simpl; [reflexivity|].
  by rewrite stripOneOf_stop.
Qed.

(** A string whose first byte starts no white-space rune and whose last
    byte ends none is left alone by [TrimSpace]. *)
Lemma TrimSpace_id (s : string) (c d : ascii) (l l' : list ascii) :
  chars s = c :: l -> List.rev (chars s) = d :: l' ->
  startsNoRune spaceRunes c = true ->
  startsNoRune (List.map (@List.rev ascii) spaceRunes) d = true ->
  TrimSpace s = s.
Proof.
  intros Hs Hr Hc Hd. unfold TrimSpace, trimLeft, trimRight.
  rewrite Hs, trimWith_stop by done. rewrite <- Hs, Hr.
  rewrite trimWith_stop by done. rewrite <- Hr, rev_involutive.
  apply string_of_list_ascii_of_string.
Qed.

Lemma allCommas_rev (s : string) :
  Forall (eq ","%char) (chars s) -> List.rev (chars s) = chars s.
Proof.
  intros H. induction H as [|c l <- Hl IH]; simpl; [reflexivity|].
  rewrite IH. clear IH. induction Hl as [|d l <- Hl IH]; simpl; [reflexivity|].
  by rewrite IH.
Qed.

Lemma TrimSpace_commas (s : string) :
  Forall (eq ","%char) (chars s) -> TrimSpace s = s.
Proof.
  intros H. destruct s as [|c s]; [reflexivity|].
  pose proof (allCommas_rev _ H) as Hrev.
  simpl in H. inversion H as [|? ? <- Hs]; subst.
  eapply TrimSpace_id; [reflexivity|exact Hrev|reflexivity|reflexivity].
Qed.

Lemma HasSuffix_spec (s suf : string) :
  HasSuffix s suf = true -> exists t, chars s = t ++ chars suf.
Proof.
  unfold HasSuffix. intros H. apply andb_true_iff in H as [_ H].
  apply String.eqb_eq in H. rewrite <- H.
  generalize (String.length s - String.length (sliceFrom s (String.length s - String.length suf)))%nat.
  intros _. clear H.
  generalize (String.length s - String.length suf)%nat as n.
  induction s as [|c s IH]; intros n.
  - exists []. by destruct n.
  - destruct n as [|n]; [by exists []|]. simpl.
    destruct (IH n) as [t Ht]. exists (c :: t). simpl. by rewrite <- Ht.
Qed.

Lemma allCommas_no_suffix (s suf : string) :
  Forall (eq ","%char) (chars s) ->
  match List.rev (chars suf) with
  | c :: _ => negb (Ascii.eqb c ",")
  | [] => false
  end = true ->
  HasSuffix s suf = false.
Proof.
  intros Hall Hsuf. destruct (HasSuffix s suf) eqn:E; [|reflexivity].
  apply HasSuffix_spec in E as [t Ht]. rewrite Ht in Hall.
  apply Forall_app in Hall as [_ Hall].
  apply Forall_rev in Hall.
  destruct (List.rev (chars suf)) as [|c l]; [discriminate|].
  inversion Hall; subst. by rewrite Ascii.eqb_refl in Hsuf.
Qed.

Lemma Split_commas (s : string) :
  Forall (eq ","%char) (chars s) ->
  Split s "," = repeat "" (S (String.length s)).
Proof.
  induction s as [|c s IH]; simpl; intros H; [reflexivity|].
  inversion H as [|? ? <- Hs]; subst. simpl. by rewrite IH.
Qed.

Lemma Join_empties (k : nat) (sep : ascii) :
  chars (Join (repeat "" (S k)) (String sep "")) = repeat sep k.
Proof.
  induction k as [|k IH]; [reflexivity|].
  change (repeat "" (S (S k))) with ("" :: repeat "" (S k)).
  rewrite Join_cons by done. rewrite !chars_app, IH. reflexivity.
Qed.

(** A line whose comma-separated parts are all empty is made of commas. *)
Lemma empty_parts_commas (line : string) :
  Forall (fun p => p = "") (Split line ",") ->
  Forall (eq ","%char) (chars line).
Proof.
  intros H. rewrite <- (Join_Split line ",").
  assert (Split line "," = repeat "" (List.length (Split line ","))) as ->.
  { induction H as [|p ps -> _ IH]; simpl; [reflexivity|by rewrite <- IH]. }
  pose proof (Split_nonempty line ",") as Hne.
  destruct (List.length (Split line ",")) as [|k] eqn:E.
  { destruct (Split line ","); [done|discriminate]. }
  rewrite Join_empties. clear. induction k; simpl; constructor; auto.
Qed.

Lemma ParseRule_never_malformed (line msg : string) :
  ParseRule line <> MalformedLineError msg.
Proof.
  unfold ParseRule. destruct (stripLine line) as [l|]; [|discriminate].
  destruct (isYAMLField l); [discriminate|].
  destruct (Contains l ",") eqn:Hc; cbn [negb]; [|discriminate].
  destruct (anySuffix l [".list"; ".yaml"; ".txt"; ".conf"]); [discriminate|].
  apply Contains_char, Split_length in Hc.
  destruct (Nat.ltb_spec (List.length (Split l ",")) 2); [lia|discriminate].
Qed.

(** C3, as the code has it: a line with a comma in it whose
    comma-separated parts are all empty (",", ",,", ...) is not rejected.
    [ParseRule] returns the rule with the empty type, the empty payload and
    no options; and no line at all makes [ParseRule] return a
    [MalformedLineError], since a line that reaches the split has a comma
    and so at least two parts. *)
Theorem ParseRule_empty_parts_is_rule (line : string) :
  Contains line "," = true ->
  Forall (fun p => p = "") (Split line ",") ->
  ParseRule line = Parsed {| Type_ := ""; Payload := ""; Options := "" |}
  /\ forall anyLine msg, ParseRule anyLine <> MalformedLineError msg.
Proof.
  intros Hc Hparts. split; [|intros; apply ParseRule_never_malformed].
  pose proof (empty_parts_commas _ Hparts) as Hall.
  apply Contains_char in Hc.
  destruct line as [|c line]; [done|].
  assert (c = ","%char) as -> by (inversion Hall; congruence).
  assert (stripLine (String "," line) = Some (String "," line)) as Hstrip.
  { unfold stripLine. cbv zeta. rewrite TrimSpace_commas by done.
    reflexivity. }
  unfold ParseRule. rewrite Hstrip.
  assert (isYAMLField (String "," line) = false) as ->.
  { unfold isYAMLField. rewrite (proj2 (Contains_char _ _) Hc).
    by rewrite andb_false_r. }
  rewrite (proj2 (Contains_char _ _) Hc). cbn [negb].
  assert (anySuffix (String "," line) [".list"; ".yaml"; ".txt"; ".conf"] = false)
    as ->.
  { unfold anySuffix. cbn [existsb].
    by rewrite !(allCommas_no_suffix (String "," line)) by done. }
  rewrite Split_commas by done.
  cbn [String.length repeat List.length nth Nat.ltb Nat.leb].
  destruct (String.length line); reflexivity.
Qed.

(** C5, as the code has it: the type of a parsed rule is the upper-cased,
    trimmed text before the first comma of the line (the line trimmed and
    freed of a leading list marker), whatever that text is; it is not looked
    up in the RuleType vocabulary. *)
Theorem ParseRule_type_is_first_field (line : string) (rule : Rule) :
  ParseRule line = Parsed rule ->
  exists stripped first rest,
    stripLine line = Some stripped
    /\ stripped = first +:+ "," +:+ rest
    /\ ~ In ","%char (chars first)
    /\ Type_ rule = ToUpper unicodeToUpper (TrimSpace first).
Proof.
  unfold ParseRule. destruct (stripLine line) as [l|]; [|discriminate].
  destruct (isYAMLField l); [discriminate|].
  destruct (Contains l ",") eqn:Hc; cbn [negb]; [|discriminate].
  destruct (anySuffix l [".list"; ".yaml"; ".txt"; ".conf"]); [discriminate|].
  apply Contains_char in Hc.
  destruct (first_sep l "," Hc) as (first & rest & -> & Hfirst).
  rewrite Split_app by done.
  destruct (Nat.ltb_spec (List.length (first :: Split rest ",")) 2);
    [discriminate|].
  intros [= <-]. exists (first +:+ String "," rest), first, rest.
  repeat split; done.
Qed.

(** ** The sort policy *)

Lemma ltb_false_leb (a b : string) :
  String.ltb b a = false <-> String.leb a b = true.
Proof.
  unfold String.ltb, String.leb. rewrite (String.compare_antisym b a).
  destruct (String.compare a b); simpl; split; congruence.
Qed.

Lemma cidrLess_asym (a b : string) : cidrLess a b = true -> cidrLess b a = false.
Proof.
  unfold cidrLess.
  destruct (Z.eqb_spec (extractCIDRMask a) (extractCIDRMask b)) as [E|E];
    destruct (Z.eqb_spec (extractCIDRMask b) (extractCIDRMask a)); try lia;
    cbn [negb].
  - apply ltb_asym.
  - rewrite Z.ltb_lt, Z.ltb_ge. lia.
Qed.

Lemma cidrLess_ntrans (a b c : string) :
  cidrLess a b = false -> cidrLess b c = false -> cidrLess a c = false.
Proof.
  unfold cidrLess.
  destruct (Z.eqb_spec (extractCIDRMask a) (extractCIDRMask b));
    destruct (Z.eqb_spec (extractCIDRMask b) (extractCIDRMask c));
    destruct (Z.eqb_spec (extractCIDRMask a) (extractCIDRMask c));
    cbn [negb]; rewrite ?Z.ltb_ge; try lia; try apply ltb_ntrans.
Qed.

Lemma cidrLess_total (a b : string) :
  cidrLess a b = false -> cidrLess b a = false -> a = b.
Proof.
  unfold cidrLess.
  destruct (Z.eqb_spec (extractCIDRMask a) (extractCIDRMask b));
    destruct (Z.eqb_spec (extractCIDRMask b) (extractCIDRMask a));
    cbn [negb]; rewrite ?Z.ltb_ge; try lia. apply ltb_total.
Qed.

Lemma cidrLess_ordered (a b : string) :
  GoSort.ordered cidrLess a b <-> cidrOrdered a b.
Proof.
  unfold GoSort.ordered, cidrOrdered, cidrLess.
  destruct (Z.eqb_spec (extractCIDRMask b) (extractCIDRMask a)); cbn [negb].
  - rewrite ltb_false_leb. split; [intros; right; split; [lia|done]|].
    intros [?|[_ ?]]; [lia|done].
  - rewrite Z.ltb_ge. split; [intros; left; lia|]. intros [?|[? _]]; lia.
Qed.



Lemma sortRulesByType_cidr (ruleType : RuleType) (rules : list string) :
  isOneOf ruleType cidrFamily = true ->
  sortRulesByType ruleType rules =
  GoSort.Slice cidrLess (List.map normalizeCIDR rules).
Proof.
  intros H. unfold isOneOf, cidrFamily in H. cbn [existsb] in H.
  repeat (apply orb_true_iff in H; destruct H as [H|H]);
    try discriminate; apply String.eqb_eq in H; subst; reflexivity.
Qed.


(** ** The deduplicator *)

(** What [Deduplicate] leaves under a rule-set name and a type. *)
Lemma Deduplicate_lookup (iter : MapIteration) (o : Optimizer)
    (name : string) (ruleSet : RuleSet) (ruleType : RuleType)
    (rules : list string) :
  ruleSets o !! name = Some ruleSet ->
  Rules ruleSet !! ruleType = Some rules ->
  ruleSets (Deduplicate iter o) !! name = Some (dedupRuleSet iter ruleSet)
  /\ Rules (dedupRuleSet iter ruleSet) !! ruleType
     = Some (dedupRules iter ruleType rules).
Proof.
  intros Hrs Hrules. split.
  - unfold Deduplicate. cbn [ruleSets]. by rewrite lookup_fmap, Hrs.
  - unfold dedupRuleSet. cbn [Rules]. by rewrite map_lookup_imap, Hrules.
Qed.

Lemma rangeKeys_singleton (iter : MapIteration) (x : string) (rules : list string) :
  rules <> [] -> Forall (eq x) rules ->
  rangeKeys iter (list_to_set rules) = [x].
Proof.
  intros Hne Hall.
  assert ((list_to_set rules : gset string) = {[x]}) as ->.
  { apply set_eq. intros y. rewrite elem_of_list_to_set, elem_of_singleton.
    rewrite list_elem_of_In. split.
    - intros Hy. rewrite List.Forall_forall in Hall. symmetry. by apply Hall.
    - intros ->. destruct rules as [|r rules]; [done|].
      inversion Hall; subst. by left. }
  apply Permutation_length_1_inv. symmetry.
  rewrite rangeKeys_perm. by rewrite elements_singleton.
Qed.

Lemma rangeKeys_pair (iter : MapIteration) (a b : string) :
  a <> b ->
  rangeKeys iter (list_to_set [a; b]) = [a; b]
  \/ rangeKeys iter (list_to_set [a; b]) = [b; a].
Proof.
  intros Hne. apply Permutation_length_2_inv, Permutation_sym.
  rewrite rangeKeys_perm. apply elements_list_to_set.
  apply NoDup_cons. split; [|apply NoDup_singleton].
  by rewrite list_elem_of_singleton.
Qed.



Lemma StronglySorted_weaken {A : Type} (R R' : A -> A -> Prop) (l : list A) :
  (forall a b, R a b -> R' a b) -> StronglySorted R l -> StronglySorted R' l.
Proof.
  intros Himp. induction 1 as [|x l Hl IH Hx]; constructor; [exact IH|].
  eapply Forall_impl; [exact Hx|]. intros y. apply Himp.
Qed.

(** The mask is appended to the address, in front of the options. *)
Lemma normalizeCIDR_spec (addr opts : string) :
  ~ In ","%char (chars addr) ->
  opts = "" \/ (exists o, opts = "," +:+ o) ->
  normalizeCIDR (addr +:+ opts) =
  if Contains addr "/" then addr +:+ opts
  else if Contains addr ":" then addr +:+ "/128" +:+ opts
  else addr +:+ "/32" +:+ opts.
Proof.
  intros Haddr Hopts. unfold normalizeCIDR. cbv zeta.
  assert (exists tail, Split (addr +:+ opts) "," = addr :: tail
                       /\ forall m, Join ((addr +:+ m) :: tail) ","
                                    = addr +:+ m +:+ opts)
    as (tail & -> & Hjoin).
  { destruct Hopts as [->|[o ->]].
    - exists []. rewrite app_empty_r, Split_no_sep by done.
      split; [reflexivity|]. intros m. simpl. by rewrite app_empty_r.
    - exists (Split o ","). change ("," +:+ o) with (String "," o).
      rewrite Split_app by done. split; [reflexivity|]. intros m.
      rewrite Join_cons by apply Split_nonempty.
      by rewrite Join_Split, app_assoc_string. }
  cbn [nth List.tl].
  destruct (Contains addr "/"); [reflexivity|].
  destruct (Contains addr ":"); apply Hjoin.
Qed.




Lemma Deduplicate_singleton (iter : MapIteration) (name : string)
    (ruleSet : RuleSet) :
  Deduplicate iter {| ruleSets := {[ name := ruleSet ]} |}
  = {| ruleSets := {[ name := dedupRuleSet iter ruleSet ]} |}.
Proof. unfold Deduplicate. cbn [ruleSets]. by rewrite map_fmap_singleton. Qed.

Lemma dedupRuleSet_empty (iter : MapIteration) (name : string)
    (filters excludes : list string) :
  dedupRuleSet iter (mkRuleSet name ∅ filters excludes)
  = mkRuleSet name ∅ filters excludes.
Proof. unfold dedupRuleSet. cbn [Rules Name Filters Excludes]. by rewrite map_imap_empty. Qed.

Lemma dedupRuleSet_insert (iter : MapIteration) (name : string)
    (rulesByType : gmap string (list string)) (filters excludes : list string)
    (ruleType : RuleType) (rules : list string) :
  dedupRuleSet iter (mkRuleSet name (<[ruleType := rules]> rulesByType)
                       filters excludes)
  = mkRuleSet name
      (<[ruleType := dedupRules iter ruleType rules]>
         (Rules (dedupRuleSet iter (mkRuleSet name rulesByType filters excludes))))
      filters excludes.
Proof.
  unfold dedupRuleSet. cbn [Rules Name Filters Excludes].
  by rewrite map_imap_insert.
Qed.

(** ** Where the order is total *)

Lemma lengthLess_asym (a b : string) :
  lengthLess a b = true -> lengthLess b a = false.
Proof. unfold lengthLess. order_cases. apply ltb_asym. Qed.

Lemma lengthLess_ntrans (a b c : string) :
  lengthLess a b = false -> lengthLess b c = false -> lengthLess a c = false.
Proof. unfold lengthLess. order_cases. apply ltb_ntrans. Qed.

Lemma lengthLess_total (a b : string) :
  lengthLess a b = false -> lengthLess b a = false -> a = b.
Proof. unfold lengthLess. order_cases. apply ltb_total. Qed.

Lemma domainSuffixLess_asym (a b : string) :
  domainSuffixLess a b = true -> domainSuffixLess b a = false.
Proof. unfold domainSuffixLess. order_cases; apply ltb_asym. Qed.

Lemma domainSuffixLess_ntrans (a b c : string) :
  domainSuffixLess a b = false -> domainSuffixLess b c = false ->
  domainSuffixLess a c = false.
Proof. unfold domainSuffixLess. order_cases; apply ltb_ntrans. Qed.

Lemma domainSuffixLess_total (a b : string) :
  domainSuffixLess a b = false -> domainSuffixLess b a = false -> a = b.
Proof. unfold domainSuffixLess. order_cases; apply ltb_total. Qed.

(** For a kind outside the IP-CIDR, port, IP-ASN, NETWORK and IN-TYPE cases
    the comparator of [sortRulesByType] is a strict total order on
    strings. *)
Lemma sortRulesByType_total_order (ruleType : RuleType) :
  orderIsTotal ruleType = true ->
  exists less : string -> string -> bool,
    (forall x y, less x y = true -> less y x = false)
    /\ (forall x y z, less x y = false -> less y z = false -> less x z = false)
    /\ (forall x y, less x y = false -> less y x = false -> x = y)
    /\ forall rules, sortRulesByType ruleType rules = GoSort.Slice less rules.
Proof.
  unfold orderIsTotal. rewrite negb_true_iff, !orb_false_iff.
  intros ((((Hcidr & Hport) & Hasn) & Hnet) & Hin).
  unfold sortRulesByType. rewrite Hcidr, Hport, Hasn, Hnet, Hin.
  repeat match goal with
         | |- context [if isOneOf ruleType ?l then _ else _] =>
             destruct (isOneOf ruleType l)
         end;
    first [ exists lengthLess; split; [exact lengthLess_asym|];
            split; [exact lengthLess_ntrans|];
            split; [exact lengthLess_total|reflexivity]
          | exists domainSuffixLess; split; [exact domainSuffixLess_asym|];
            split; [exact domainSuffixLess_ntrans|];
            split; [exact domainSuffixLess_total|reflexivity]
          | exists String.ltb; split; [exact ltb_asym|];
            split; [exact ltb_ntrans|];
            split; [exact ltb_total|reflexivity] ].
Qed.

(** There the result of the inner loop of [Deduplicate] does not depend on
    the iteration order of the map, and a second pass finds nothing to
    change. *)
Lemma dedupRules_total_order (iter1 iter2 : MapIteration)
    (ruleType : RuleType) (rules : list string) :
  orderIsTotal ruleType = true ->
  dedupRules iter2 ruleType rules = dedupRules iter1 ruleType rules
  /\ dedupRules iter2 ruleType (dedupRules iter1 ruleType rules)
     = dedupRules iter1 ruleType rules.
Proof.
  intros Hty.
  destruct (sortRulesByType_total_order ruleType Hty)
    as (less & Hasym & Hntrans & Htotal & Hsort).
  unfold dedupRules. cbv zeta. rewrite !Hsort.
  set (out := GoSort.Slice less (rangeKeys iter1 (list_to_set rules))).
  assert (out ≡ₚ elements (list_to_set rules : gset string)) as Hperm.
  { unfold out. by rewrite Slice_perm, rangeKeys_perm. }
  assert (StronglySorted (GoSort.ordered less) out) as Hsorted
    by (by apply Slice_sorted).
  split.
  - apply Slice_unique; [done..|]. by rewrite rangeKeys_perm.
  - apply Slice_unique; [done..|]. rewrite rangeKeys_perm.
    symmetry. apply elements_list_to_set.
    rewrite Hperm. apply NoDup_elements.
Qed.

(** X25: on a store whose kinds all have a comparator that is a strict
    total order (every kind but the IP-CIDR family, the ports, the ASN
    kinds, NETWORK and IN-TYPE), [Deduplicate] is idempotent, and its
    result does not depend on the order in which the [range] loop visits
    the keys of the map: a second pass, under any iteration order, leaves
    the store of the first pass. *)
Lemma Deduplicate_idempotent_total_order (iter1 iter2 : MapIteration)
    (o : Optimizer) :
  (forall name ruleSet ruleType rules,
     ruleSets o !! name = Some ruleSet ->
     Rules ruleSet !! ruleType = Some rules ->
     orderIsTotal ruleType = true) ->
  Deduplicate iter2 (Deduplicate iter1 o) = Deduplicate iter1 o.
Proof.
  intros Hall. unfold Deduplicate. cbn [ruleSets]. f_equal.
  apply map_eq. intros name. rewrite !lookup_fmap.
  destruct (ruleSets o !! name) as [ruleSet|] eqn:Hrs; [|reflexivity].
  cbn [fmap option_fmap option_map]. f_equal.
  unfold dedupRuleSet. cbn [Name Rules Filters Excludes]. f_equal.
  apply map_eq. intros ruleType. rewrite !map_lookup_imap.
  destruct (Rules ruleSet !! ruleType) as [rules|] eqn:Hrules; [|reflexivity].
  cbn [mbind option_bind]. f_equal.
  apply dedupRules_total_order. by eapply Hall.
Qed.

(** ** End to end *)

(** C1: the rule-set "test" loaded from the three lines of the example,
    deduplicated and exported.  The domain list file holds the one rule
    "+.example.com", the ipcidr list file the one rule "1.2.3.0/24", the
    classical_no_resolve list file has the line
    "IP-CIDR,1.2.3.0/24,no-resolve", and the classical list file has
    neither the domain-suffix rule nor the IP-CIDR rule: all its lines are
    comments. *)
Theorem example_end_to_end (iter : MapIteration) :
  exists (o : Optimizer) (files : gmap string string),
    LoadRuleFile {[ "test.txt" := exampleLines ]} "test.txt" "test" NewOptimizer
      = Some o
    /\ Export (Deduplicate iter o) !! "test" = Some files
    /\ files !! "test_domain.list" = Some ("+.example.com" +:+ LF)
    /\ files !! "test_ipcidr.list" = Some ("1.2.3.0/24" +:+ LF)
    /\ (exists content,
          files !! "test_classical_no_resolve.list" = Some content
          /\ In "IP-CIDR,1.2.3.0/24,no-resolve" (Split content "010")
          /\ List.filter (fun l => negb (commentOrBlank l)) (Split content "010")
             = ["IP-CIDR,1.2.3.0/24,no-resolve"])
    /\ (exists content,
          files !! "test_classical.list" = Some content
          /\ ~ In "DOMAIN-SUFFIX,.example.com" (Split content "010")
          /\ ~ In "IP-CIDR,1.2.3.0/24" (Split content "010")
          /\ forallb commentOrBlank (Split content "010") = true).
Proof.
  exists {| ruleSets := {[ "test" := exampleStored ]} |},
         (exportRuleSet exampleDeduped).
  split; [vm_compute; reflexivity|].
  assert (Deduplicate iter {| ruleSets := {[ "test" := exampleStored ]} |}
          = {| ruleSets := {[ "test" := exampleDeduped ]} |}) as ->.
  { unfold exampleStored, exampleDeduped.
    rewrite Deduplicate_singleton, !dedupRuleSet_insert, dedupRuleSet_empty.
    unfold dedupRules. cbv zeta.
    rewrite (rangeKeys_singleton iter ".example.com")
      by (repeat constructor; done).
    rewrite (rangeKeys_singleton iter "1.2.3.0/24")
      by (repeat constructor; done).
    reflexivity. }
  split.
  { unfold Export. cbn [ruleSets]. by rewrite lookup_fmap, lookup_singleton_eq. }
  split; [vm_compute; reflexivity|]. split; [vm_compute; reflexivity|]. split.
  - exists (listFile (exportClassical exampleDeduped false true)).
    split; [vm_compute; reflexivity|]. split; [|vm_compute; reflexivity].
    vm_compute. tauto.
  - exists (listFile (exportClassical exampleDeduped false false)).
    split; [vm_compute; reflexivity|].
    split; [|split; [|vm_compute; reflexivity]].
    + vm_compute. intuition discriminate.
    + vm_compute. intuition discriminate.
Qed.

(** C2, evaluated: [Deduplicate] collapses the duplicates before the
    IP-CIDR case of the sort normalizes the entries, so two entries that
    differ by the default mask only are both kept and come out equal.
    From the lines "IP-CIDR,1.2.3.4" and "IP-CIDR,1.2.3.4/32" one pass
    leaves "1.2.3.4/32" twice and a second pass leaves it once, whatever
    the iteration orders are.  For the port kinds the comparator sees the
    range start only, so two entries with the same start stay in the order
    in which the map was iterated: the two iteration orders give two
    different sequences. *)
Theorem Deduplicate_twice_differs_from_once (iter1 iter2 : MapIteration) :
  (exists (o : Optimizer) (once twice : RuleSet),
     LoadRuleFile {[ "test.txt" := unmaskedLines ]} "test.txt" "test"
       NewOptimizer = Some o
     /\ ruleSets (Deduplicate iter1 o) !! "test" = Some once
     /\ Rules once !! RuleTypeIPCIDR = Some ["1.2.3.4/32"; "1.2.3.4/32"]
     /\ ruleSets (Deduplicate iter2 (Deduplicate iter1 o)) !! "test" = Some twice
     /\ Rules twice !! RuleTypeIPCIDR = Some ["1.2.3.4/32"])
  /\ dedupRules canonicalIteration RuleTypeDstPort ["80-443"; "80-8080"]
     = ["80-443"; "80-8080"]
  /\ dedupRules reversedIteration RuleTypeDstPort ["80-443"; "80-8080"]
     = ["80-8080"; "80-443"].
Proof.
  split; [|split; vm_compute; reflexivity].
  exists {| ruleSets := {[ "test" := unmaskedStored ]} |},
         (mkRuleSet "test"
            (<[RuleTypeIPCIDR := ["1.2.3.4/32"; "1.2.3.4/32"]]> ∅) [] []),
         (mkRuleSet "test" (<[RuleTypeIPCIDR := ["1.2.3.4/32"]]> ∅) [] []).
  split; [vm_compute; reflexivity|].
  assert (dedupRules iter1 RuleTypeIPCIDR ["1.2.3.4"; "1.2.3.4/32"]
          = ["1.2.3.4/32"; "1.2.3.4/32"]) as Honce.
  { unfold dedupRules. cbv zeta.
    destruct (rangeKeys_pair iter1 "1.2.3.4" "1.2.3.4/32") as [-> | ->];
      [done|reflexivity|reflexivity]. }
  assert (dedupRules iter2 RuleTypeIPCIDR ["1.2.3.4/32"; "1.2.3.4/32"]
          = ["1.2.3.4/32"]) as Htwice.
  { unfold dedupRules. cbv zeta.
    rewrite (rangeKeys_singleton iter2 "1.2.3.4/32")
      by (repeat constructor; done).
    reflexivity. }
  unfold unmaskedStored.
  rewrite Deduplicate_singleton, dedupRuleSet_insert, dedupRuleSet_empty, Honce.
  cbn [Rules].
  rewrite Deduplicate_singleton, dedupRuleSet_insert, dedupRuleSet_empty, Htwice.
  cbn [Rules ruleSets].
  rewrite !lookup_singleton_eq, !lookup_insert_eq. done.
Qed.

Lemma classicalSection_insert_other (ruleSet : RuleSet) (kind : RuleType)
    (extra : list string) (includeAll withNoResolve : bool)
    (ruleType : RuleType) :
  ruleType <> kind ->
  classicalSection
    (mkRuleSet (Name ruleSet) (<[kind := extra]> (Rules ruleSet))
       (Filters ruleSet) (Excludes ruleSet))
    includeAll withNoResolve ruleType
  = classicalSection ruleSet includeAll withNoResolve ruleType.
Proof.
  intros Hne. unfold classicalSection. cbn [Rules Filters Excludes].
  by rewrite lookup_insert_ne.
Qed.

Lemma exportClassical_insert_unordered (ruleSet : RuleSet) (kind : RuleType)
    (extra : list string) (includeAll withNoResolve : bool) :
  ~ In kind orderedTypes ->
  exportClassical
    (mkRuleSet (Name ruleSet) (<[kind := extra]> (Rules ruleSet))
       (Filters ruleSet) (Excludes ruleSet))
    includeAll withNoResolve
  = exportClassical ruleSet includeAll withNoResolve.
Proof.
  intros Hnot. unfold exportClassical. cbv zeta. cbn [Name].
  assert (List.map
            (fun ruleType =>
               (ruleType,
                classicalSection
                  (mkRuleSet (Name ruleSet) (<[kind := extra]> (Rules ruleSet))
                     (Filters ruleSet) (Excludes ruleSet))
                  includeAll withNoResolve ruleType))
            orderedTypes
          = List.map
              (fun ruleType =>
                 (ruleType,
                  classicalSection ruleSet includeAll withNoResolve ruleType))
              orderedTypes) as ->; [|reflexivity].
  apply map_ext_in. intros ruleType Hin.
  rewrite classicalSection_insert_other; [reflexivity|].
  intros ->. contradiction.
Qed.

(** C4, evaluated: the traversal order of [exportClassical] has neither
    MATCH nor FINAL in it, so the rules stored under these two kinds reach
    no classical file, the two "all" files included: a rule-set with such
    rules has the files of the rule-set without them.  From the one line
    "MATCH,DIRECT" the classical_all list file is the header and the
    placeholder, with no rule line. *)
Theorem exportClassical_all_omits_match_and_final :
  (forall (ruleSet : RuleSet) (matchRules finalRules : list string)
          (includeAll withNoResolve : bool),
     exportClassical
       (mkRuleSet (Name ruleSet)
          (<[RuleTypeMatch := matchRules]>
             (<[RuleTypeFinal := finalRules]> (Rules ruleSet)))
          (Filters ruleSet) (Excludes ruleSet))
       includeAll withNoResolve
     = exportClassical ruleSet includeAll withNoResolve)
  /\ forall iter : MapIteration,
       exists (o : Optimizer) (stored : RuleSet) (files : gmap string string),
         LoadRuleFile {[ "test.txt" := ["MATCH,DIRECT"] ]} "test.txt" "test"
           NewOptimizer = Some o
         /\ ruleSets (Deduplicate iter o) !! "test" = Some stored
         /\ Rules stored !! RuleTypeMatch = Some ["DIRECT"]
         /\ Export (Deduplicate iter o) !! "test" = Some files
         /\ files !! "test_classical_all.list"
            = Some (classicalHeader "test" true false +:+ placeholder +:+ LF)
         /\ files !! "test_classical_all_no_resolve.list"
            = Some (classicalHeader "test" true true +:+ placeholder +:+ LF).
Proof.
  split.
  - intros ruleSet matchRules finalRules includeAll withNoResolve.
    assert (~ In RuleTypeMatch orderedTypes) as Hmatch
      by (vm_compute; intuition discriminate).
    assert (~ In RuleTypeFinal orderedTypes) as Hfinal
      by (vm_compute; intuition discriminate).
    etransitivity.
    + exact (exportClassical_insert_unordered
               (mkRuleSet (Name ruleSet)
                  (<[RuleTypeFinal := finalRules]> (Rules ruleSet))
                  (Filters ruleSet) (Excludes ruleSet))
               RuleTypeMatch matchRules includeAll withNoResolve Hmatch).
    + exact (exportClassical_insert_unordered ruleSet RuleTypeFinal finalRules
               includeAll withNoResolve Hfinal).
  - intros iter.
    exists {| ruleSets := {[ "test" := matchStored ]} |}, matchStored,
           (exportRuleSet matchStored).
    split; [vm_compute; reflexivity|].
    assert (Deduplicate iter {| ruleSets := {[ "test" := matchStored ]} |}
            = {| ruleSets := {[ "test" := matchStored ]} |}) as ->.
    { unfold matchStored.
      rewrite Deduplicate_singleton, dedupRuleSet_insert, dedupRuleSet_empty.
      unfold dedupRules. cbv zeta.
      rewrite (rangeKeys_singleton iter "DIRECT") by (repeat constructor; done).
      reflexivity. }
    split; [cbn [ruleSets]; by rewrite lookup_singleton_eq|].
    split; [vm_compute; reflexivity|]. split.
    { unfold Export. cbn [ruleSets].
      by rewrite lookup_fmap, lookup_singleton_eq. }
    split; vm_compute; reflexivity.
Qed.

(** ** More about the rule parser *)

Lemma stripPrefix_app (e s s' : list ascii) :
  stripPrefix e s = Some s' -> s = e ++ s'.
Proof.
  revert s. induction e as [|p e IH]; intros s; simpl.
  - by intros [= ->].
  - destruct s as [|c s]; [discriminate|].
    destruct (Ascii.eqb_spec p c) as [->|_]; [|discriminate].
    intros H. by rewrite (IH _ H).
Qed.

Lemma stripOneOf_app (table : list (list ascii)) (s s' : list ascii) :
  stripOneOf table s = Some s' -> exists e, s = e ++ s'.
Proof.
  induction table as [|e table IH]; simpl; [discriminate|].
  destruct (stripPrefix e s) as [t|] eqn:He; [|exact IH].
  intros [= <-]. exists e. by apply stripPrefix_app.
Qed.

(** Trimming leaves a suffix of the byte sequence. *)
Lemma trimWith_suffix (table : list (list ascii)) (fuel : nat) (s : list ascii) :
  exists pre, s = pre ++ trimWith table fuel s.
Proof.
  revert s. induction fuel as [|fuel IH]; intros s; simpl; [by exists []|].
  destruct (stripOneOf table s) as [s'|] eqn:Hs; [|by exists []].
  destruct (stripOneOf_app _ _ _ Hs) as [e ->].
  destruct (IH s') as [pre Hpre]. exists (e ++ pre).
  by rewrite <- app_assoc, <- Hpre.
Qed.

Lemma TrimSpace_incl (s : string) (c : ascii) :
  In c (chars (TrimSpace s)) -> In c (chars s).
Proof.
  unfold TrimSpace. rewrite list_ascii_of_string_of_list_ascii.
  unfold trimRight, trimLeft. intros Hin.
  apply in_rev in Hin.
  destruct (trimWith_suffix (List.map (@List.rev ascii) spaceRunes)
              (List.length (trimWith spaceRunes (List.length (chars s)) (chars s)))
              (List.rev (trimWith spaceRunes (List.length (chars s)) (chars s))))
    as [pre Hpre].
  assert (In c (List.rev (trimWith spaceRunes (List.length (chars s)) (chars s))))
    as Hin' by (rewrite Hpre; apply in_or_app; by right).
  apply in_rev in Hin'.
  destruct (trimWith_suffix spaceRunes (List.length (chars s)) (chars s))
    as [pre' Hpre'].
  rewrite Hpre'. apply in_or_app. by right.
Qed.

Lemma sliceFrom_incl (s : string) (n : nat) (c : ascii) :
  In c (chars (sliceFrom s n)) -> In c (chars s).
Proof.
  revert s. induction n as [|n IH]; intros s; [by destruct s|].
  destruct s as [|d s]; simpl; [done|]. intros H. right. by apply IH.
Qed.

Lemma stripLine_incl (line stripped : string) (c : ascii) :
  stripLine line = Some stripped ->
  In c (chars stripped) -> In c (chars line).
Proof.
  unfold stripLine. cbv zeta.
  destruct (String.eqb (TrimSpace line) ""); [discriminate|].
  destruct (anyPrefix (TrimSpace line) ["#"; ";"; "//"; "---"]); [discriminate|].
  destruct (HasPrefix (TrimSpace line) "-").
  - destruct (String.eqb (TrimSpace (sliceFrom (TrimSpace line) 1)) "");
      [discriminate|].
    intros [= <-] Hin.
    by apply TrimSpace_incl, (sliceFrom_incl _ 1), TrimSpace_incl.
  - intros [= <-]. apply TrimSpace_incl.
Qed.

(** X1: a line with no comma in it is never a rule and never an error:
    [ParseRule] passes it over. *)
Theorem ParseRule_skips_line_without_comma (line : string) :
  Contains line "," = false -> ParseRule line = Skip.
Proof.
  intros Hc. apply Contains_char_false in Hc.
  unfold ParseRule. destruct (stripLine line) as [l|] eqn:Hl; [|reflexivity].
  destruct (isYAMLField l); [reflexivity|].
  assert (Contains l "," = false) as ->; [|reflexivity].
  apply Contains_char_false. intros Hin. apply Hc.
  by eapply stripLine_incl.
Qed.

Lemma Split_parts_no_sep (s : string) (sep : ascii) (p : string) :
  In p (Split s sep) -> ~ In sep (chars p).
Proof.
  revert p. induction s as [|c s IH]; intros p; simpl.
  - intros [<-|[]]. simpl. intros [].
  - destruct (Ascii.eqb_spec c sep) as [->|Hne].
    + intros [<-|Hin]; [simpl; intros []|by apply IH].
    + pose proof (Split_nonempty s sep) as Hnil.
      destruct (Split s sep) as [|q qs]; [done|].
      intros [<-|Hin].
      * simpl. intros [?|Hq]; [congruence|].
        revert Hq. apply IH. by left.
      * apply IH. by right.
Qed.

Lemma nth_Split_no_sep (s : string) (sep : ascii) (n : nat) :
  ~ In sep (chars (nth n (Split s sep) "")).
Proof.
  destruct (nth_in_or_default n (Split s sep) "") as [Hin| ->].
  - by eapply Split_parts_no_sep.
  - simpl. intros [].
Qed.

(** The fields of a parsed rule, read off the split of the stripped
    line. *)
Lemma ParseRule_parsed_fields (line : string) (rule : Rule) :
  ParseRule line = Parsed rule ->
  ~ In ","%char (chars (Payload rule))
  /\ ~ In ","%char (chars (Options rule))
  /\ exists stripped,
       stripLine line = Some stripped
       /\ Payload rule = TrimSpace (nth 1 (Split stripped ",") "")
       /\ Options rule = match Split stripped "," with
                         | _ :: _ :: third :: _ => TrimSpace third
                         | _ => ""
                         end.
Proof.
  unfold ParseRule. destruct (stripLine line) as [l|]; [|discriminate].
  destruct (isYAMLField l); [discriminate|].
  destruct (negb (Contains l ",")); [discriminate|].
  destruct (anySuffix l [".list"; ".yaml"; ".txt"; ".conf"]); [discriminate|].
  destruct (List.length (Split l ",") <? 2)%nat; [discriminate|].
  intros [= <-]. cbn [Payload Options]. split; [|split].
  - intros Hin. apply TrimSpace_incl in Hin.
    by apply nth_Split_no_sep in Hin.
  - destruct (2 <? List.length (Split l ","))%nat; [|simpl; intros []].
    intros Hin. apply TrimSpace_incl in Hin.
    by apply nth_Split_no_sep in Hin.
  - exists l. split; [reflexivity|]. split; [reflexivity|].
    destruct (Split l ",") as [|p1 [|p2 [|p3 ps]]]; reflexivity.
Qed.

(** X2: the payload and the options of a parsed rule hold no comma: they
    are the trimmed second and third fields of the line, and what follows
    a third comma is dropped. *)
Theorem ParseRule_fields_have_no_comma (line : string) (rule : Rule) :
  ParseRule line = Parsed rule ->
  ~ In ","%char (chars (Payload rule))
  /\ ~ In ","%char (chars (Options rule))
  /\ exists stripped,
       stripLine line = Some stripped
       /\ Payload rule = TrimSpace (nth 1 (Split stripped ",") "")
       /\ Options rule = match Split stripped "," with
                         | _ :: _ :: third :: _ => TrimSpace third
                         | _ => ""
                         end.
Proof. exact (ParseRule_parsed_fields line rule). Qed.

(** ** The rule store *)

Lemma addLine_withFilters (filters excludes : list string) (ruleSet : RuleSet)
    (text : string) :
  addLine (withFilters filters excludes ruleSet) text
  = withFilters filters excludes (addLine ruleSet text).
Proof.
  unfold addLine. destruct (ParseRule text); reflexivity.
Qed.

Lemma fold_addLine_withFilters (filters excludes : list string)
    (lines : list string) (ruleSet : RuleSet) :
  fold_left addLine lines (withFilters filters excludes ruleSet)
  = withFilters filters excludes (fold_left addLine lines ruleSet).
Proof.
  revert ruleSet. induction lines as [|text lines IH]; intros ruleSet;
    [reflexivity|].
  simpl. by rewrite addLine_withFilters, IH.
Qed.

(** A line adds at most one entry, at the end of the sequence of its type,
    and touches nothing else of the rule-set. *)
Lemma addLine_appends (ruleSet : RuleSet) (text : string) :
  Name (addLine ruleSet text) = Name ruleSet
  /\ Filters (addLine ruleSet text) = Filters ruleSet
  /\ Excludes (addLine ruleSet text) = Excludes ruleSet
  /\ forall ruleType rules,
       Rules ruleSet !! ruleType = Some rules ->
       exists more, Rules (addLine ruleSet text) !! ruleType = Some (rules ++ more).
Proof.
  unfold addLine. destruct (ParseRule text) as [|rule|msg];
    cbn [Name Filters Excludes Rules];
    (split; [reflexivity|]); (split; [reflexivity|]); (split; [reflexivity|]);
    intros ruleType rules Hrules; try (exists []; by rewrite app_nil_r).
  destruct (decide (Type_ rule = ruleType)) as [Heq|Hne].
  - subst ruleType. rewrite lookup_insert_eq, Hrules. eexists. reflexivity.
  - rewrite lookup_insert_ne by done. exists []. by rewrite app_nil_r.
Qed.

Lemma fold_addLine_appends (lines : list string) (ruleSet : RuleSet) :
  Name (fold_left addLine lines ruleSet) = Name ruleSet
  /\ Filters (fold_left addLine lines ruleSet) = Filters ruleSet
  /\ Excludes (fold_left addLine lines ruleSet) = Excludes ruleSet
  /\ forall ruleType rules,
       Rules ruleSet !! ruleType = Some rules ->
       exists more,
         Rules (fold_left addLine lines ruleSet) !! ruleType
         = Some (rules ++ more).
Proof.
  revert ruleSet. induction lines as [|text lines IH]; intros ruleSet.
  - repeat split. intros ruleType rules Hrules. exists [].
    cbn [fold_left]. by rewrite app_nil_r.
  - cbn [fold_left].
    destruct (IH (addLine ruleSet text)) as (Hn & Hf & He & Hr).
    destruct (addLine_appends ruleSet text) as (Hn' & Hf' & He' & Hr').
    split; [congruence|]. split; [congruence|]. split; [congruence|].
    intros ruleType rules Hrules.
    destruct (Hr' _ _ Hrules) as [more1 H1].
    destruct (Hr _ _ H1) as [more2 H2].
    exists (more1 ++ more2). by rewrite H2, <- app_assoc.
Qed.

(** X3: loading is append-only and local.  A successful [LoadRuleFile]
    leaves every other rule-set as it was.  The rule-set it loads into is
    there afterwards; if it was there before, its name, filters and
    excludes are unchanged and every sequence it held is a prefix of the
    sequence held afterwards; if it was not, it is created under the given
    name with no filters and no excludes. *)
Theorem LoadRuleFile_appends (fs : gmap string (list string))
    (filePath ruleSetName : string) (o o' : Optimizer) :
  LoadRuleFile fs filePath ruleSetName o = Some o' ->
  (forall other, other <> ruleSetName ->
     ruleSets o' !! other = ruleSets o !! other)
  /\ exists after,
       ruleSets o' !! ruleSetName = Some after
       /\ (forall before,
             ruleSets o !! ruleSetName = Some before ->
             Name after = Name before
             /\ Filters after = Filters before
             /\ Excludes after = Excludes before
             /\ forall ruleType rules,
                  Rules before !! ruleType = Some rules ->
                  exists more, Rules after !! ruleType = Some (rules ++ more))
       /\ (ruleSets o !! ruleSetName = None ->
             Name after = ruleSetName /\ Filters after = [] /\ Excludes after = []).
Proof.
  unfold LoadRuleFile. destruct (fs !! filePath) as [lines|]; [|discriminate].
  intros [= <-]. cbn [ruleSets]. split.
  - intros other Hne. by rewrite lookup_insert_ne.
  - eexists. split; [apply lookup_insert_eq|]. split.
    + intros before ->. apply fold_addLine_appends.
    + intros ->.
      destruct (fold_addLine_appends lines
                  {| Name := ruleSetName; Rules := ∅; Filters := []; Excludes := [] |})
        as (Hn & Hf & He & _).
      by rewrite Hn, Hf, He.
Qed.

(** X4: loads compose.  Two files loaded one after the other into one
    rule-set give the store that one file with the lines of both gives;
    loads into two different rule-sets can be swapped. *)
Theorem LoadRuleFile_composes (fs : gmap string (list string))
    (path1 path2 : string) (lines1 lines2 : list string) (o : Optimizer) :
  fs !! path1 = Some lines1 -> fs !! path2 = Some lines2 ->
  (forall name both,
     fs !! both = Some (lines1 ++ lines2) ->
     LoadRuleFile fs path1 name o ≫= LoadRuleFile fs path2 name
     = LoadRuleFile fs both name o)
  /\ (forall name1 name2,
        name1 <> name2 ->
        LoadRuleFile fs path1 name1 o ≫= LoadRuleFile fs path2 name2
        = LoadRuleFile fs path2 name2 o ≫= LoadRuleFile fs path1 name1).
Proof.
  intros H1 H2. split.
  - intros name both Hboth. unfold LoadRuleFile. rewrite H1, Hboth.
    cbn [mbind option_bind ruleSets]. rewrite H2, lookup_insert_eq.
    by rewrite insert_insert_eq, fold_left_app.
  - intros name1 name2 Hne. unfold LoadRuleFile. rewrite H1, H2.
    cbn [mbind option_bind ruleSets]. rewrite ?H1, ?H2.
    rewrite !lookup_insert_ne by done. by rewrite insert_insert_ne.
Qed.

(** X5: [SetRulesetFilters] fails exactly for a name the optimizer does
    not hold.  When it succeeds it replaces the two pattern lists of that
    rule-set and nothing else, whatever they were (the last call wins). *)
Theorem SetRulesetFilters_replaces (ruleSetName : string)
    (filters excludes : list string) (o : Optimizer) :
  (SetRulesetFilters ruleSetName filters excludes o = None
   <-> ruleSets o !! ruleSetName = None)
  /\ (forall o',
        SetRulesetFilters ruleSetName filters excludes o = Some o' ->
        (forall other, other <> ruleSetName ->
           ruleSets o' !! other = ruleSets o !! other)
        /\ ruleSets o' !! ruleSetName
           = withFilters filters excludes <$> ruleSets o !! ruleSetName)
  /\ (forall filters0 excludes0 o0,
        SetRulesetFilters ruleSetName filters0 excludes0 o = Some o0 ->
        SetRulesetFilters ruleSetName filters excludes o0
        = SetRulesetFilters ruleSetName filters excludes o).
Proof.
  unfold SetRulesetFilters.
  destruct (ruleSets o !! ruleSetName) as [ruleSet|] eqn:Hrs.
  - split; [split; discriminate|]. split.
    + intros o' [= <-]. cbn [ruleSets]. split.
      * intros other Hne. by rewrite lookup_insert_ne.
      * by rewrite lookup_insert_eq.
    + intros filters0 excludes0 o0 [= <-]. cbn [ruleSets].
      rewrite lookup_insert_eq. cbn [Name Rules].
      by rewrite insert_insert_eq.
  - split; [done|]. split; [discriminate|]. discriminate.
Qed.

(** X6: for a rule-set the optimizer already holds, setting the filters
    before a load and after it give the same store. *)
Theorem SetRulesetFilters_commutes_with_load (fs : gmap string (list string))
    (filePath ruleSetName : string) (filters excludes : list string)
    (o : Optimizer) :
  is_Some (ruleSets o !! ruleSetName) ->
  LoadRuleFile fs filePath ruleSetName o
    ≫= SetRulesetFilters ruleSetName filters excludes
  = SetRulesetFilters ruleSetName filters excludes o
      ≫= LoadRuleFile fs filePath ruleSetName.
Proof.
  intros [ruleSet Hrs]. unfold LoadRuleFile, SetRulesetFilters.
  rewrite Hrs. cbn [mbind option_bind ruleSets].
  destruct (fs !! filePath) as [lines|]; [|reflexivity].
  cbn [mbind option_bind ruleSets]. rewrite !lookup_insert_eq.
  rewrite !insert_insert_eq. do 2 f_equal. f_equal.
  change {| Name := Name ruleSet; Rules := Rules ruleSet;
            Filters := filters; Excludes := excludes |}
    with (withFilters filters excludes ruleSet).
  by rewrite fold_addLine_withFilters.
Qed.

(** ** More about the deduplicator *)

(** Whatever the kind, sorting rearranges the slice; the IP-CIDR case
    rewrites its entries first. *)
Lemma sortRulesByType_perm (ruleType : RuleType) (rules : list string) :
  sortRulesByType ruleType rules
  ≡ₚ (if isOneOf ruleType cidrFamily then List.map normalizeCIDR rules
      else rules).
Proof.
  destruct (isOneOf ruleType cidrFamily) eqn:Hcidr.
  - rewrite sortRulesByType_cidr by done. apply Slice_perm.
  - unfold sortRulesByType. rewrite Hcidr.
    repeat match goal with
           | |- context [if isOneOf ruleType ?l then _ else _] =>
               destruct (isOneOf ruleType l)
           end; apply Slice_perm.
Qed.

Lemma dedupRules_length (iter : MapIteration) (ruleType : RuleType)
    (rules : list string) :
  List.length (dedupRules iter ruleType rules)
  = size (list_to_set rules : gset string).
Proof.
  unfold dedupRules. cbv zeta. rewrite sortRulesByType_perm.
  assert (List.length (rangeKeys iter (list_to_set rules))
          = size (list_to_set rules : gset string)) as <-.
  { by rewrite rangeKeys_perm. }
  destruct (isOneOf ruleType cidrFamily); [apply length_map|reflexivity].
Qed.

Lemma dedupRules_distinct (iter : MapIteration) (ruleType : RuleType)
    (rules : list string) :
  isOneOf ruleType cidrFamily = false ->
  dedupRules iter ruleType rules ≡ₚ elements (list_to_set rules : gset string).
Proof.
  intros Hty. unfold dedupRules. cbv zeta.
  by rewrite sortRulesByType_perm, Hty, rangeKeys_perm.
Qed.

(** X7: [Deduplicate] adds and removes neither rule-sets nor types, and
    keeps names, filters and excludes.  Under every type outside the
    IP-CIDR families the sequence it leaves has no entry twice and holds
    exactly the entries that were there. *)
Theorem Deduplicate_keeps_the_distinct_entries (iter : MapIteration)
    (o : Optimizer) (name : string) :
  (ruleSets (Deduplicate iter o) !! name = None <-> ruleSets o !! name = None)
  /\ forall ruleSet,
       ruleSets o !! name = Some ruleSet ->
       exists ruleSet',
         ruleSets (Deduplicate iter o) !! name = Some ruleSet'
         /\ Name ruleSet' = Name ruleSet
         /\ Filters ruleSet' = Filters ruleSet
         /\ Excludes ruleSet' = Excludes ruleSet
         /\ (forall ruleType,
               Rules ruleSet' !! ruleType = None
               <-> Rules ruleSet !! ruleType = None)
         /\ forall ruleType rules,
              Rules ruleSet !! ruleType = Some rules ->
              isOneOf ruleType cidrFamily = false ->
              exists out,
                Rules ruleSet' !! ruleType = Some out
                /\ NoDup out
                /\ forall entry, In entry out <-> In entry rules.
Proof.
  unfold Deduplicate. cbn [ruleSets]. rewrite lookup_fmap. split.
  - by rewrite fmap_None.
  - intros ruleSet ->. exists (dedupRuleSet iter ruleSet).
    split; [reflexivity|]. do 3 (split; [reflexivity|]).
    unfold dedupRuleSet. cbn [Rules]. split.
    + intros ruleType. rewrite map_lookup_imap.
      destruct (Rules ruleSet !! ruleType); simpl; split; congruence.
    + intros ruleType rules Hrules Hty. rewrite map_lookup_imap, Hrules.
      eexists. split; [reflexivity|].
      pose proof (dedupRules_distinct iter ruleType rules Hty) as Hperm.
      split.
      * rewrite Hperm. apply NoDup_elements.
      * intros entry. rewrite <- !list_elem_of_In, Hperm.
        by rewrite elem_of_elements, elem_of_list_to_set.
Qed.

(** X8: [GetStatistics] counts the entries of each sequence; after
    [Deduplicate] the count of a type is the number of distinct entries
    that were stored under it, which is at most the count before. *)
Theorem GetStatistics_after_Deduplicate (iter : MapIteration) (o : Optimizer)
    (name : string) (ruleSet : RuleSet) (ruleType : RuleType)
    (rules : list string) :
  ruleSets o !! name = Some ruleSet ->
  Rules ruleSet !! ruleType = Some rules ->
  exists before after,
    GetStatistics o !! name = Some before
    /\ before !! ruleType = Some (Z.of_nat (List.length rules))
    /\ GetStatistics (Deduplicate iter o) !! name = Some after
    /\ after !! ruleType
       = Some (Z.of_nat (size (list_to_set rules : gset string)))
    /\ (size (list_to_set rules : gset string) <= List.length rules)%nat.
Proof.
  intros Hrs Hrules.
  destruct (Deduplicate_lookup iter o name ruleSet ruleType rules Hrs Hrules)
    as [H1 H2].
  unfold GetStatistics. rewrite !lookup_fmap, Hrs, H1.
  eexists _, _. split; [reflexivity|].
  split; [by rewrite lookup_fmap, Hrules|].
  split; [reflexivity|]. split.
  - rewrite lookup_fmap, H2. cbn [fmap option_fmap option_map].
    by rewrite dedupRules_length.
  - change (size (list_to_set rules : gset string))
      with (List.length (elements (list_to_set rules : gset string))).
    apply NoDup_incl_length; [apply NoDup_ListNoDup, NoDup_elements|].
    intros entry Hin. apply list_elem_of_In.
    apply list_elem_of_In, elem_of_elements in Hin.
    by apply elem_of_list_to_set in Hin.
Qed.

(** ** The other rows of the sort policy *)

Lemma lengthLess_ordered (a b : string) :
  GoSort.ordered lengthLess a b <-> lengthOrdered a b.
Proof.
  unfold GoSort.ordered, lengthOrdered, lengthLess.
  destruct (Nat.eqb_spec (String.length b) (String.length a)); cbn [negb].
  - rewrite ltb_false_leb. split; [intros; right; split; [lia|done]|].
    intros [?|[_ ?]]; [lia|done].
  - destruct (Nat.ltb_spec (String.length b) (String.length a)).
    + split; [discriminate|]. intros [?|[? _]]; lia.
    + split; [intros _; left; lia|reflexivity].
Qed.

Lemma domainSuffixLess_ordered (a b : string) :
  GoSort.ordered domainSuffixLess a b <-> suffixOrdered a b.
Proof.
  unfold GoSort.ordered, suffixOrdered, domainSuffixLess. cbv zeta.
  fold (isShortSuffix a). fold (isShortSuffix b).
  pose proof (lengthLess_ordered a b) as Hlen.
  unfold GoSort.ordered, lengthLess in Hlen.
  destruct (isShortSuffix a), (isShortSuffix b); cbn [Bool.eqb negb].
  - rewrite Hlen. split; [intros; by right|]. intros [[_ ?]|[_ ?]]; done.
  - split; [intros _; by left|reflexivity].
  - split; [discriminate|]. intros [[? _]|[? _]]; discriminate.
  - rewrite Hlen. split; [intros; by right|]. intros [[? _]|[_ ?]]; done.
Qed.

Lemma sortRulesByType_length_kind (ruleType : RuleType) (rules : list string) :
  isOneOf ruleType lengthKinds = true ->
  sortRulesByType ruleType rules = GoSort.Slice lengthLess rules.
Proof.
  intros H. unfold isOneOf, lengthKinds in H. cbn [existsb] in H.
  repeat (apply orb_true_iff in H; destruct H as [H|H]);
    try discriminate; apply String.eqb_eq in H; subst; reflexivity.
Qed.

Lemma sortRulesByType_lexicographic (ruleType : RuleType) (rules : list string) :
  lexicographicKind ruleType = true ->
  sortRulesByType ruleType rules = GoSort.Strings rules.
Proof.
  unfold lexicographicKind, orderIsTotal.
  rewrite negb_involutive, negb_true_iff, !orb_false_iff.
  intros ((Hlen & Hsuffix) & ((((Hcidr & Hport) & Hasn) & Hnet) & Hin)).
  unfold isOneOf, lengthKinds in Hlen. cbn [existsb] in Hlen.
  rewrite !orb_false_iff in Hlen.
  destruct Hlen as (Hd & Hk & Hw & Hr & Hnr & Hpr & Hpn & Hpp & _).
  unfold sortRulesByType. rewrite Hsuffix, Hcidr, Hport, Hasn, Hnet, Hin.
  unfold isOneOf. cbn [existsb].
  rewrite Hd, Hk, Hw, Hr, Hnr, Hpr, Hpn, Hpp. cbn [orb].
  repeat match goal with
         | |- context [if ?c then _ else _] => destruct c
         end; reflexivity.
Qed.

Lemma sortRulesByType_asn (ruleType : RuleType) (rules : list string) :
  isOneOf ruleType asnKinds = true ->
  sortRulesByType ruleType rules = GoSort.Slice asnLess rules.
Proof.
  intros H. unfold isOneOf, asnKinds in H. cbn [existsb] in H.
  repeat (apply orb_true_iff in H; destruct H as [H|H]);
    try discriminate; apply String.eqb_eq in H; subst; reflexivity.
Qed.

(** X9: for the kinds sorted by length (exact domain, keyword, wildcard,
    the three regex kinds, process name and path) the sequence
    [Deduplicate] leaves is in ascending length, entries of one length in
    lexicographic order. *)
Theorem Deduplicate_sorts_by_length (iter : MapIteration) (o : Optimizer)
    (name : string) (ruleSet : RuleSet) (ruleType : RuleType)
    (rules : list string) :
  isOneOf ruleType lengthKinds = true ->
  ruleSets o !! name = Some ruleSet ->
  Rules ruleSet !! ruleType = Some rules ->
  exists ruleSet' out,
    ruleSets (Deduplicate iter o) !! name = Some ruleSet'
    /\ Rules ruleSet' !! ruleType = Some out
    /\ StronglySorted lengthOrdered out.
Proof.
  intros Hty Hrs Hrules.
  destruct (Deduplicate_lookup iter o name ruleSet ruleType rules Hrs Hrules)
    as [H1 H2].
  eexists _, _. split; [exact H1|]. split; [exact H2|].
  unfold dedupRules. cbv zeta. rewrite sortRulesByType_length_kind by done.
  eapply StronglySorted_weaken; [intros a b; apply lengthLess_ordered|].
  apply Slice_sorted; [apply lengthLess_asym|apply lengthLess_ntrans].
Qed.

(** X10: for DOMAIN-SUFFIX the sequence [Deduplicate] leaves has the
    suffixes of length 2 to 5 first, and within each of the two groups
    ascending length, then lexicographic order. *)
Theorem Deduplicate_sorts_domain_suffixes (iter : MapIteration) (o : Optimizer)
    (name : string) (ruleSet : RuleSet) (rules : list string) :
  ruleSets o !! name = Some ruleSet ->
  Rules ruleSet !! RuleTypeDomainSuffix = Some rules ->
  exists ruleSet' out,
    ruleSets (Deduplicate iter o) !! name = Some ruleSet'
    /\ Rules ruleSet' !! RuleTypeDomainSuffix = Some out
    /\ StronglySorted suffixOrdered out.
Proof.
  intros Hrs Hrules.
  destruct (Deduplicate_lookup iter o name ruleSet _ rules Hrs Hrules)
    as [H1 H2].
  eexists _, _. split; [exact H1|]. split; [exact H2|].
  unfold dedupRules. cbv zeta.
  change (sortRulesByType RuleTypeDomainSuffix ?l)
    with (GoSort.Slice domainSuffixLess l).
  eapply StronglySorted_weaken; [intros a b; apply domainSuffixLess_ordered|].
  apply Slice_sorted; [apply domainSuffixLess_asym|apply domainSuffixLess_ntrans].
Qed.

(** X11: for the kinds of the two lexicographic cases and for every kind
    the switch does not name (RULE-SET, SUB-RULE, MATCH, FINAL and any
    type string outside the vocabulary) the sequence [Deduplicate] leaves
    is in bytewise lexicographic order. *)
Theorem Deduplicate_sorts_lexicographically (iter : MapIteration)
    (o : Optimizer) (name : string) (ruleSet : RuleSet) (ruleType : RuleType)
    (rules : list string) :
  lexicographicKind ruleType = true ->
  ruleSets o !! name = Some ruleSet ->
  Rules ruleSet !! ruleType = Some rules ->
  exists ruleSet' out,
    ruleSets (Deduplicate iter o) !! name = Some ruleSet'
    /\ Rules ruleSet' !! ruleType = Some out
    /\ StronglySorted (fun a b => String.leb a b = true) out.
Proof.
  intros Hty Hrs Hrules.
  destruct (Deduplicate_lookup iter o name ruleSet ruleType rules Hrs Hrules)
    as [H1 H2].
  eexists _, _. split; [exact H1|]. split; [exact H2|].
  unfold dedupRules. cbv zeta. rewrite sortRulesByType_lexicographic by done.
  eapply StronglySorted_weaken;
    [intros a b; apply (proj1 (ltb_false_leb a b))|].
  apply (Slice_sorted String.ltb ltb_asym ltb_ntrans).
Qed.

Lemma TrimPrefix_app (pre s : string) : TrimPrefix (pre +:+ s) pre = s.
Proof.
  unfold TrimPrefix.
  rewrite (proj2 (HasPrefix_spec _ pre) (ex_intro _ s eq_refl)).
  induction pre as [|c pre IH]; [by destruct s|exact IH].
Qed.

(** X12: for the IP-ASN kinds the comparator drops a leading "AS" from
    both entries and compares what is left as strings, not as numbers:
    the sequence [Deduplicate] leaves holds the distinct entries ordered
    by that text, and "AS10" stands before "AS9". *)
Theorem Deduplicate_sorts_asn_as_strings :
  (forall number, TrimPrefix ("AS" +:+ number) "AS" = number)
  /\ (forall entry, HasPrefix entry "AS" = false -> TrimPrefix entry "AS" = entry)
  /\ (forall (iter : MapIteration) (o : Optimizer) (name : string)
             (ruleSet : RuleSet) (ruleType : RuleType) (rules : list string),
        isOneOf ruleType asnKinds = true ->
        ruleSets o !! name = Some ruleSet ->
        Rules ruleSet !! ruleType = Some rules ->
        exists ruleSet' out,
          ruleSets (Deduplicate iter o) !! name = Some ruleSet'
          /\ Rules ruleSet' !! ruleType = Some out
          /\ out ≡ₚ elements (list_to_set rules : gset string)
          /\ StronglySorted
               (fun a b =>
                  String.ltb (TrimPrefix b "AS") (TrimPrefix a "AS") = false)
               out)
  /\ forall iter : MapIteration,
       dedupRules iter RuleTypeIPASN ["AS9"; "AS10"] = ["AS10"; "AS9"].
Proof.
  split; [intros number; apply TrimPrefix_app|].
  split; [intros entry H; unfold TrimPrefix; by rewrite H|]. split.
  - intros iter o name ruleSet ruleType rules Hty Hrs Hrules.
    destruct (Deduplicate_lookup iter o name ruleSet ruleType rules Hrs Hrules)
      as [H1 H2].
    eexists _, _. split; [exact H1|]. split; [exact H2|].
    unfold dedupRules. cbv zeta. rewrite sortRulesByType_asn by done.
    split; [by rewrite Slice_perm, rangeKeys_perm|].
    apply (Slice_sorted asnLess).
    + intros x y. apply ltb_asym.
    + intros x y z. apply ltb_ntrans.
  - intros iter. unfold dedupRules. cbv zeta.
    destruct (rangeKeys_pair iter "AS9" "AS10") as [-> | ->];
      [done|reflexivity|reflexivity].
Qed.

(** ** More about CIDR entries *)

Lemma rule_decompose (rule : string) :
  exists addr opts,
    rule = addr +:+ opts
    /\ ~ In ","%char (chars addr)
    /\ (opts = "" \/ exists o, opts = "," +:+ o).
Proof.
  destruct (in_dec ascii_dec ","%char (chars rule)) as [Hin|Hnot].
  - destruct (first_sep rule "," Hin) as (a & b & -> & Ha).
    exists a, (String "," b). split; [reflexivity|]. split; [exact Ha|].
    right. by exists b.
  - exists rule, "". split; [by rewrite app_empty_r|]. split; [exact Hnot|].
    by left.
Qed.

(** The mask is read off the text before the first comma. *)
Lemma extractCIDRMask_app (addr opts : string) :
  ~ In ","%char (chars addr) ->
  opts = "" \/ (exists o, opts = "," +:+ o) ->
  extractCIDRMask (addr +:+ opts) = extractCIDRMask addr.
Proof.
  intros Haddr Hopts. unfold extractCIDRMask. cbv zeta.
  rewrite (Split_no_sep addr ",") by done.
  destruct Hopts as [->|[o ->]].
  - by rewrite app_empty_r, Split_no_sep.
  - change ("," +:+ o) with (String "," o). by rewrite Split_app.
Qed.

Lemma Index_first_char (a b : string) (c : ascii) :
  ~ In c (chars a) ->
  Index (a +:+ String c b) (String c "") = Z.of_nat (String.length a).
Proof.
  induction a as [|x a IH]; intros Hn.
  - change ("" +:+ String c b) with (String c b). rewrite Index_cons.
    cbn [String.prefix]. destruct (ascii_dec c c); [|done].
    by rewrite prefix_empty.
  - rewrite app_cons, Index_cons. cbn [String.prefix].
    destruct (ascii_dec c x) as [->|_]; [exfalso; apply Hn; by left|].
    rewrite IH by (intros H; apply Hn; by right).
    destruct (Z.ltb_spec (Z.of_nat (String.length a)) 0); [lia|].
    cbn [String.length]. lia.
Qed.

Lemma sliceFrom_app (a b : string) :
  sliceFrom (a +:+ b) (String.length a) = b.
Proof.
  induction a as [|x a IH]; [by destruct b|exact IH].
Qed.

Lemma Index_absent (s : string) (c : ascii) :
  ~ In c (chars s) -> Index s (String c "") = -1.
Proof.
  intros Hn. apply Contains_char_false in Hn. unfold Contains in Hn.
  apply Z.leb_gt in Hn. destruct (Index_range s (String c "")); lia.
Qed.

Lemma extractCIDRMask_default (addr : string) :
  ~ In ","%char (chars addr) -> ~ In "/"%char (chars addr) ->
  extractCIDRMask addr = (if Contains addr ":" then 128 else 32)
  /\ extractCIDRMask (addr +:+ "/128") = 128
  /\ extractCIDRMask (addr +:+ "/32") = 32.
Proof.
  intros Hcomma Hslash.
  assert (forall digits,
            ~ In ","%char (chars digits) ->
            extractCIDRMask (addr +:+ String "/" digits)
            = GoFmt.SscanfInt digits) as Hmask.
  { intros digits Hd. unfold extractCIDRMask. cbv zeta.
    rewrite Split_no_sep.
    - cbn [nth]. rewrite Index_first_char by done.
      destruct (Z.eqb_spec (Z.of_nat (String.length addr)) (-1)); [lia|].
      cbn [negb].
      replace (Z.to_nat (Z.of_nat (String.length addr) + 1))
        with (String.length (addr +:+ "/")).
      + change (String "/" digits) with ("/" +:+ digits).
        by rewrite <- app_assoc_string, sliceFrom_app.
      + clear. induction addr as [|x a IH]; [reflexivity|].
        rewrite app_cons. cbn [String.length]. rewrite IH. lia.
    - rewrite chars_app. intros Hin. apply in_app_or in Hin as [Hin|Hin];
        [done|]. simpl in Hin. destruct Hin as [?|Hin]; [discriminate|done]. }
  split; [|split].
  - unfold extractCIDRMask. cbv zeta. rewrite Split_no_sep by done.
    cbn [nth]. rewrite Index_absent by done. reflexivity.
  - rewrite (Hmask "128"); [reflexivity|].
    simpl. intros [?|[?|[?|[]]]]; discriminate.
  - rewrite (Hmask "32"); [reflexivity|].
    simpl. intros [?|[?|[]]]; discriminate.
Qed.

(** X13: normalizing an entry twice is normalizing it once, and the mask
    length the sort reads from the normalized entry is the one it reads
    from the entry itself (128 or 32 by default, the written one
    otherwise). *)
Theorem normalizeCIDR_idempotent_keeps_mask (rule : string) :
  normalizeCIDR (normalizeCIDR rule) = normalizeCIDR rule
  /\ extractCIDRMask (normalizeCIDR rule) = extractCIDRMask rule.
Proof.
  destruct (rule_decompose rule) as (addr & opts & -> & Haddr & Hopts).
  rewrite (normalizeCIDR_spec addr opts Haddr Hopts).
  destruct (Contains addr "/") eqn:Hslash.
  { split; [|reflexivity]. by rewrite normalizeCIDR_spec, Hslash. }
  apply Contains_char_false in Hslash.
  destruct (extractCIDRMask_default addr Haddr Hslash) as (Hdef & H128 & H32).
  assert (forall mask,
            ~ In ","%char (chars mask) ->
            normalizeCIDR ((addr +:+ "/" +:+ mask) +:+ opts)
            = (addr +:+ "/" +:+ mask) +:+ opts) as Hfix.
  { intros mask Hmask. rewrite normalizeCIDR_spec; [| |done].
    - assert (Contains (addr +:+ "/" +:+ mask) "/" = true) as ->; [|done].
      apply Contains_char. rewrite chars_app. apply in_or_app. right. by left.
    - rewrite chars_app. intros Hin. apply in_app_or in Hin as [Hin|Hin];
        [done|]. simpl in Hin. destruct Hin as [?|Hin]; [discriminate|done]. }
  rewrite (extractCIDRMask_app addr opts Haddr Hopts), Hdef.
  destruct (Contains addr ":").
  - rewrite <- (app_assoc_string addr "/128" opts). split.
    + apply (Hfix "128"). simpl. intros [?|[?|[?|[]]]]; discriminate.
    + rewrite extractCIDRMask_app; [exact H128| |done].
      rewrite chars_app. intros Hin. apply in_app_or in Hin as [Hin|Hin];
        [done|]. simpl in Hin.
      destruct Hin as [?|[?|[?|[?|[]]]]]; discriminate.
  - rewrite <- (app_assoc_string addr "/32" opts). split.
    + apply (Hfix "32"). simpl. intros [?|[?|[]]]; discriminate.
    + rewrite extractCIDRMask_app; [exact H32| |done].
      rewrite chars_app. intros Hin. apply in_app_or in Hin as [Hin|Hin];
        [done|]. simpl in Hin.
      destruct Hin as [?|[?|[?|[]]]]; discriminate.
Qed.

(** ** The no-resolve option *)

Lemma Split_Join (parts : list string) :
  parts <> [] ->
  Forall (fun p => ~ In ","%char (chars p)) parts ->
  Split (Join parts ",") "," = parts.
Proof.
  intros Hne Hall. induction Hall as [|p ps Hp Hps IH]; [done|].
  destruct ps as [|q ps].
  - cbn [Join]. by apply Split_no_sep.
  - rewrite Join_cons by done. change ("," +:+ ?x) with (String "," x).
    rewrite Split_app by done. by rewrite IH.
Qed.

Lemma Split_all_no_sep (s : string) (sep : ascii) :
  Forall (fun p => ~ In sep (chars p)) (Split s sep).
Proof.
  apply List.Forall_forall. intros p. apply Split_parts_no_sep.
Qed.

Lemma Forall_filter_keep {A : Type} (P : A -> Prop) (f : A -> bool)
    (l : list A) :
  Forall P l -> Forall P (List.filter f l).
Proof.
  induction 1 as [|x l Hx Hl IH]; simpl; [constructor|].
  destruct (f x); [by constructor|exact IH].
Qed.

(** The parts of a rule once the no-resolve parts are taken out. *)
Lemma stripNoResolve_parts (rule : string) :
  Forall (fun part => String.eqb (TrimSpace part) "no-resolve" = false)
         (Split (stripNoResolve rule) ",").
Proof.
  unfold stripNoResolve.
  set (keep := fun part => negb (String.eqb (TrimSpace part) "no-resolve")).
  destruct (List.filter keep (Split rule ",")) as [|p ps] eqn:Hparts.
  - repeat constructor.
  - rewrite Split_Join; [|done|].
    + rewrite <- Hparts. apply List.Forall_forall. intros part Hin.
      apply filter_In in Hin as [_ Hkeep]. unfold keep in Hkeep.
      by apply negb_true_iff in Hkeep.
    + rewrite <- Hparts. apply Forall_filter_keep, Split_all_no_sep.
Qed.

Lemma stripNoResolve_unchanged (rule : string) :
  Forall (fun part => String.eqb (TrimSpace part) "no-resolve" = false)
         (Split rule ",") ->
  stripNoResolve rule = rule.
Proof.
  intros Hall. unfold stripNoResolve.
  rewrite filter_all_true; [apply Join_Split|].
  intros part Hin. rewrite List.Forall_forall in Hall.
  by rewrite (Hall part Hin).
Qed.

(** X14: what the ipcidr files and the classical files without
    no-resolve write for an IP-CIDR entry has no comma-separated part that
    is "no-resolve" up to white space; taking the parts out twice is taking
    them out once; an entry without such a part is written as it is, and
    "address,no-resolve" is written as the address. *)
Theorem stripNoResolve_removes_every_no_resolve (rule : string) :
  Forall (fun part => TrimSpace part <> "no-resolve")
         (Split (stripNoResolve rule) ",")
  /\ stripNoResolve (stripNoResolve rule) = stripNoResolve rule
  /\ (Forall (fun part => TrimSpace part <> "no-resolve") (Split rule ",") ->
      stripNoResolve rule = rule)
  /\ (forall addr,
        ~ In ","%char (chars addr) -> TrimSpace addr <> "no-resolve" ->
        stripNoResolve (addr +:+ ",no-resolve") = addr).
Proof.
  split; [|split; [|split]].
  - eapply Forall_impl; [apply stripNoResolve_parts|].
    intros part Hpart. by apply String.eqb_neq.
  - apply stripNoResolve_unchanged, stripNoResolve_parts.
  - intros Hall. apply stripNoResolve_unchanged.
    eapply Forall_impl; [exact Hall|]. intros part Hpart.
    by apply String.eqb_neq.
  - intros addr Haddr Htrim. unfold stripNoResolve.
    change (",no-resolve") with (String "," "no-resolve").
    rewrite Split_app by done.
    change (Split "no-resolve" ",") with ["no-resolve"].
    cbn [List.filter]. apply String.eqb_neq in Htrim. rewrite Htrim.
    reflexivity.
Qed.




(** ** More about the filter engine *)

Lemma filter_sublist {A : Type} (f : A -> bool) (l : list A) :
  sublist (List.filter f l) l.
Proof.
  induction l as [|x l IH]; simpl; [constructor|].
  destruct (f x); by constructor.
Qed.

(** X16: filtering only removes entries: whatever the patterns and the
    matcher, the result is a subsequence of the rule list, in the order of
    the list; without filters and without excludes it is the list. *)
Theorem applyRuleFilters_only_removes (rules : list string)
    (ruleType : RuleType) (filters excludes : list string) :
  sublist (applyRuleFilters rules ruleType filters excludes) rules
  /\ (List.length (applyRuleFilters rules ruleType filters excludes)
      <= List.length rules)%nat
  /\ applyRuleFilters rules ruleType [] [] = rules.
Proof.
  assert (sublist (applyRuleFilters rules ruleType filters excludes) rules)
    as Hsub by (rewrite applyRuleFilters_filter; apply filter_sublist).
  split; [exact Hsub|]. split; [by apply sublist_length|].
  by destruct rules.
Qed.

(** ** More about the exporters *)

Lemma exportClassical_sections_ext (ruleSet ruleSet' : RuleSet)
    (includeAll withNoResolve : bool) :
  Name ruleSet' = Name ruleSet ->
  (forall ruleType,
     In ruleType orderedTypes ->
     classicalSection ruleSet' includeAll withNoResolve ruleType
     = classicalSection ruleSet includeAll withNoResolve ruleType) ->
  exportClassical ruleSet' includeAll withNoResolve
  = exportClassical ruleSet includeAll withNoResolve.
Proof.
  intros Hname Hsec. unfold exportClassical. cbv zeta. rewrite Hname.
  assert (List.map
            (fun ruleType =>
               (ruleType,
                classicalSection ruleSet' includeAll withNoResolve ruleType))
            orderedTypes
          = List.map
              (fun ruleType =>
                 (ruleType,
                  classicalSection ruleSet includeAll withNoResolve ruleType))
              orderedTypes) as ->; [|reflexivity].
  apply map_ext_in. intros ruleType Hin. by rewrite Hsec.
Qed.

(** X17: the two classical files that are not "all" files do not depend
    on what the rule-set holds under DOMAIN and DOMAIN-SUFFIX, and the
    classical file without no-resolve does not depend on what it holds
    under IP-CIDR and IP-CIDR6 either: storing any entries under such a
    kind leaves the file as it is. *)
Theorem exportClassical_leaves_out_the_dialect_kinds (ruleSet : RuleSet)
    (kind : RuleType) (entries : list string) :
  (isOneOf kind domainListTypes = true ->
   forall withNoResolve,
     exportClassical
       (mkRuleSet (Name ruleSet) (<[kind := entries]> (Rules ruleSet))
          (Filters ruleSet) (Excludes ruleSet))
       false withNoResolve
     = exportClassical ruleSet false withNoResolve)
  /\ (isOneOf kind ipcidrListTypes = true ->
      exportClassical
        (mkRuleSet (Name ruleSet) (<[kind := entries]> (Rules ruleSet))
           (Filters ruleSet) (Excludes ruleSet))
        false false
      = exportClassical ruleSet false false).
Proof.
  split.
  - intros Hkind withNoResolve.
    apply exportClassical_sections_ext; [reflexivity|].
    intros ruleType _. destruct (decide (ruleType = kind)) as [->|Hne].
    + unfold classicalSection. cbn [Rules negb andb].
      rewrite lookup_insert_eq, Hkind.
      destruct (Rules ruleSet !! kind) as [rules|];
        [destruct (List.length rules =? 0)%nat|];
        by destruct (List.length entries =? 0)%nat.
    + by apply classicalSection_insert_other.
  - intros Hkind.
    apply exportClassical_sections_ext; [reflexivity|].
    intros ruleType _. destruct (decide (ruleType = kind)) as [->|Hne].
    + unfold classicalSection. cbn [Rules negb andb].
      rewrite lookup_insert_eq, Hkind.
      destruct (Rules ruleSet !! kind) as [rules|];
        [destruct (List.length rules =? 0)%nat|];
        destruct (List.length entries =? 0)%nat;
        by destruct (isOneOf kind domainListTypes).
    + by apply classicalSection_insert_other.
Qed.

(** X18: the domain files are made of the DOMAIN and DOMAIN-SUFFIX
    entries only and the ipcidr files of the IP-CIDR and IP-CIDR6 entries
    only: storing any entries under another kind leaves them as they
    are. *)
Theorem dialect_files_read_their_kinds_only (ruleSet : RuleSet)
    (kind : RuleType) (entries : list string) :
  (isOneOf kind domainListTypes = false ->
   exportDomain
     (mkRuleSet (Name ruleSet) (<[kind := entries]> (Rules ruleSet))
        (Filters ruleSet) (Excludes ruleSet))
   = exportDomain ruleSet)
  /\ (isOneOf kind ipcidrListTypes = false ->
      exportIPCIDR
        (mkRuleSet (Name ruleSet) (<[kind := entries]> (Rules ruleSet))
           (Filters ruleSet) (Excludes ruleSet))
      = exportIPCIDR ruleSet).
Proof.
  unfold isOneOf, domainListTypes, ipcidrListTypes. cbn [existsb].
  rewrite !orb_false_iff, !String.eqb_neq. split.
  - intros (Hd & Hs & _). unfold exportDomain. cbv zeta.
    cbn [Rules Filters Excludes].
    by rewrite !lookup_insert_ne by done.
  - intros (H4 & H6 & _). unfold exportIPCIDR. cbv zeta.
    cbn [Rules Filters Excludes List.flat_map].
    by rewrite !lookup_insert_ne by done.
Qed.


(** X20: a rule-set that holds no rule still gets all its files: the
    domain and ipcidr files are the placeholder comment (with an empty
    payload in the YAML file), and every classical file is its header
    followed by the placeholder comment. *)
Theorem empty_rule_set_exports_placeholders (ruleSet : RuleSet) :
  Rules ruleSet = ∅ ->
  exportDomain ruleSet
  = {| yamlFile := placeholder +:+ LF +:+ "payload: []" +:+ LF;
       listFile := placeholder +:+ LF |}
  /\ exportIPCIDR ruleSet
     = {| yamlFile := placeholder +:+ LF +:+ "payload: []" +:+ LF;
          listFile := placeholder +:+ LF |}
  /\ forall includeAll withNoResolve,
       exportClassical ruleSet includeAll withNoResolve
       = {| yamlFile :=
              classicalHeader (Name ruleSet) includeAll withNoResolve
              +:+ "payload:" +:+ LF +:+ "  " +:+ placeholder +:+ LF;
            listFile :=
              classicalHeader (Name ruleSet) includeAll withNoResolve
              +:+ placeholder +:+ LF |}.
Proof.
  intros Hempty. split; [|split].
  - unfold exportDomain. by rewrite Hempty, !lookup_empty.
  - unfold exportIPCIDR. cbn [List.flat_map]. by rewrite Hempty, !lookup_empty.
  - intros includeAll withNoResolve. unfold exportClassical. cbv zeta.
    assert (forall ruleType,
              classicalSection ruleSet includeAll withNoResolve ruleType = [])
      as Hsec.
    { intros ruleType. unfold classicalSection.
      by rewrite Hempty, lookup_empty. }
    unfold orderedTypes. cbn [List.map]. rewrite !Hsec. reflexivity.
Qed.

(** ** What the store holds *)

Lemma addLine_entries (ruleSet : RuleSet) (text : string) :
  (forall ruleType rules entry,
     Rules ruleSet !! ruleType = Some rules -> In entry rules ->
     atMostOneComma entry) ->
  forall ruleType rules entry,
    Rules (addLine ruleSet text) !! ruleType = Some rules -> In entry rules ->
    atMostOneComma entry.
Proof.
  intros Hold ruleType rules entry. unfold addLine.
  destruct (ParseRule text) as [|rule|msg] eqn:Hparse; try apply Hold.
  destruct (ParseRule_parsed_fields text rule Hparse)
    as (Hpayload & Hoptions & _).
  cbn [Rules]. destruct (decide (Type_ rule = ruleType)) as [Heq|Hne].
  - subst ruleType. rewrite lookup_insert_eq. intros [= <-] Hin.
    apply in_app_or in Hin as [Hin|[<-|[]]].
    + destruct (Rules ruleSet !! Type_ rule) as [old|] eqn:Hlookup;
        [by eapply Hold|destruct Hin].
    + unfold atMostOneComma.
      destruct (String.eqb (Options rule) ""); cbn [negb].
      * rewrite Split_no_sep by done. simpl. lia.
      * change ("," +:+ Options rule) with (String "," (Options rule)).
        rewrite Split_app, Split_no_sep by done. simpl. lia.
  - rewrite lookup_insert_ne by done. apply Hold.
Qed.

Lemma fold_addLine_entries (lines : list string) (ruleSet : RuleSet) :
  (forall ruleType rules entry,
     Rules ruleSet !! ruleType = Some rules -> In entry rules ->
     atMostOneComma entry) ->
  forall ruleType rules entry,
    Rules (fold_left addLine lines ruleSet) !! ruleType = Some rules ->
    In entry rules -> atMostOneComma entry.
Proof.
  revert ruleSet. induction lines as [|text lines IH]; intros ruleSet Hold;
    [exact Hold|].
  cbn [fold_left]. apply IH. by apply addLine_entries.
Qed.

(** X21: every entry of a store that was filled by [LoadRuleFile] has at
    most one comma: it is a payload, or a payload and one options field.
    The new optimizer has the property and every load keeps it. *)
Theorem LoadRuleFile_stores_at_most_one_comma :
  entriesHold atMostOneComma NewOptimizer
  /\ forall (fs : gmap string (list string)) (filePath ruleSetName : string)
            (o o' : Optimizer),
       entriesHold atMostOneComma o ->
       LoadRuleFile fs filePath ruleSetName o = Some o' ->
       entriesHold atMostOneComma o'.
Proof.
  split.
  - intros name ruleSet ruleType rules entry Hrs.
    cbn [NewOptimizer ruleSets] in Hrs. by rewrite lookup_empty in Hrs.
  - intros fs filePath ruleSetName o o' Hold. unfold LoadRuleFile.
    destruct (fs !! filePath) as [lines|]; [|discriminate].
    intros [= <-] name ruleSet ruleType rules entry. cbn [ruleSets].
    destruct (decide (ruleSetName = name)) as [Heq|Hne].
    + subst name. rewrite lookup_insert_eq. intros [= <-].
      apply fold_addLine_entries.
      destruct (ruleSets o !! ruleSetName) as [before|] eqn:Hbefore.
      * intros ty rs e. by eapply Hold.
      * intros ty rs e. cbn [Rules]. by rewrite lookup_empty.
    + rewrite lookup_insert_ne by done. apply Hold.
Qed.

(** ** The caller *)

Lemma fold_left_commute {A B C : Type} (f : C -> A -> C) (g : C -> B -> C)
    (l : list A) (m : list B) (x : C) :
  (forall y a b, f (g y b) a = g (f y a) b) ->
  fold_left f l (fold_left g m x) = fold_left g m (fold_left f l x).
Proof.
  intros Hfg. revert x. induction l as [|a l IH]; intros x; [reflexivity|].
  cbn [fold_left]. rewrite <- IH. f_equal.
  clear IH. revert x. induction m as [|b m IH]; intros x; [reflexivity|].
  cbn [fold_left]. by rewrite IH, Hfg.
Qed.

Lemma loadRulesetFiles_commute (fs : gmap string (list string))
    (o : Optimizer) (entry1 entry2 : string * list string) :
  fst entry1 <> fst entry2 ->
  loadRulesetFiles fs (loadRulesetFiles fs o entry2) entry1
  = loadRulesetFiles fs (loadRulesetFiles fs o entry1) entry2.
Proof.
  intros Hne. unfold loadRulesetFiles. apply fold_left_commute.
  intros y path1 path2. unfold LoadRuleFile.
  destruct (fs !! path1) as [lines1|], (fs !! path2) as [lines2|];
    try reflexivity.
  cbn [ruleSets]. rewrite !lookup_insert_ne by done.
  by rewrite insert_insert_ne.
Qed.

Lemma configureRuleset_commute (o : Optimizer)
    (entry1 entry2 : string * (list string * list string)) :
  fst entry1 <> fst entry2 ->
  configureRuleset (configureRuleset o entry2) entry1
  = configureRuleset (configureRuleset o entry1) entry2.
Proof.
  intros Hne. unfold configureRuleset, SetRulesetFilters.
  destruct (ruleSets o !! fst entry1) as [rs1|] eqn:H1,
           (ruleSets o !! fst entry2) as [rs2|] eqn:H2;
    cbn [ruleSets]; rewrite ?lookup_insert_ne by done; rewrite ?H1, ?H2;
    cbn [ruleSets]; rewrite ?lookup_insert_ne by done; rewrite ?H1, ?H2;
    try reflexivity.
  by rewrite insert_insert_ne.
Qed.

Lemma lookup_map_key {A B : Type} (key : A -> B) (l : list A) (j : nat)
    (a : A) :
  l !! j = Some a -> List.map key l !! j = Some (key a).
Proof.
  revert j. induction l as [|x l IH]; intros [|j]; simpl; try discriminate.
  - by intros [= ->].
  - apply IH.
Qed.

Lemma fold_left_permutation_keys {A C : Type} (key : A -> string)
    (f : C -> A -> C) (l1 l2 : list A) (x : C) :
  (forall y a b, key a <> key b -> f (f y b) a = f (f y a) b) ->
  NoDup (List.map key l1) -> l1 ≡ₚ l2 ->
  fold_left f l1 x = fold_left f l2 x.
Proof.
  intros Hcomm Hnodup Hperm. rewrite <- !fold_left_rev_right.
  apply (foldr_permutation (=) (fun a y => f y a) x).
  - intros j1 a1 j2 a2 b Hj H1 H2. symmetry. apply Hcomm.
    intros Hkey.
    assert (List.rev (List.map key l1) !! j1 = Some (key a1)) as K1
      by (rewrite <- map_rev; by apply lookup_map_key).
    assert (List.rev (List.map key l1) !! j2 = Some (key a2)) as K2
      by (rewrite <- map_rev; by apply lookup_map_key).
    rewrite <- Hkey in K1.
    apply Hj. eapply NoDup_lookup; [|exact K1|exact K2].
    rewrite rev_alt. change (rev_append ?l []) with (reverse l).
    by rewrite reverse_Permutation.
  - rewrite !rev_alt.
    change (rev_append ?l []) with (reverse l).
    by rewrite !reverse_Permutation.
Qed.

(** X22: the result of [processRulesets] does not depend on the order in
    which the two maps are visited: for the entries of a map (no name
    twice) taken in two different orders the optimizer that reaches
    [Deduplicate], and so the exported files, are the same. *)
Theorem processRulesets_ignores_the_visiting_order (iter : MapIteration)
    (fs : gmap string (list string))
    (rulesetFiles rulesetFiles' : list (string * list string))
    (classifiedRules classifiedRules'
       : list (string * (list string * list string))) :
  NoDup (List.map fst rulesetFiles) -> rulesetFiles ≡ₚ rulesetFiles' ->
  NoDup (List.map fst classifiedRules) -> classifiedRules ≡ₚ classifiedRules' ->
  optimizerOf fs rulesetFiles classifiedRules
  = optimizerOf fs rulesetFiles' classifiedRules'
  /\ processRulesets iter fs rulesetFiles classifiedRules
     = processRulesets iter fs rulesetFiles' classifiedRules'.
Proof.
  intros Hfiles Hpf Hconf Hpc.
  assert (optimizerOf fs rulesetFiles classifiedRules
          = optimizerOf fs rulesetFiles' classifiedRules') as Heq.
  { unfold optimizerOf.
    rewrite (fold_left_permutation_keys fst (loadRulesetFiles fs)
               rulesetFiles rulesetFiles') by
      (first [done | intros; by apply loadRulesetFiles_commute]).
    apply (fold_left_permutation_keys fst configureRuleset); [|done..].
    intros. by apply configureRuleset_commute. }
  split; [exact Heq|]. unfold processRulesets. by rewrite Heq.
Qed.

(** X23: the caller goes on after a failure.  A path that cannot be
    opened changes nothing, wherever it stands in the list of a rule-set,
    and a configured rule-set for which nothing was loaded is passed
    over. *)
Theorem processRulesets_skips_failures (fs : gmap string (list string))
    (o : Optimizer) :
  (forall name before missing after,
     fs !! missing = None ->
     loadRulesetFiles fs o (name, before ++ missing :: after)
     = loadRulesetFiles fs o (name, before ++ after))
  /\ (forall name patterns,
        ruleSets o !! name = None ->
        configureRuleset o (name, patterns) = o).
Proof.
  split.
  - intros name before missing after Hmissing. unfold loadRulesetFiles.
    cbn [fst snd]. rewrite !fold_left_app. cbn [fold_left].
    unfold LoadRuleFile at 2. by rewrite Hmissing.
  - intros name patterns Hnone. unfold configureRuleset, SetRulesetFilters.
    cbn [fst]. by rewrite Hnone.
Qed.

(** ** Reading a written mask *)

Lemma parseDigits_decimal (d : Decimal.uint) (acc : nat) :
  GoFmt.parseDigits (Z.of_nat acc) (chars (NilEmpty.string_of_uint d))
  = Some (Z.of_nat (Nat.of_uint_acc d acc)).
Proof.
  revert acc. induction d as [|d IH|d IH|d IH|d IH|d IH|d IH|d IH|d IH|d IH|d IH];
    intros acc; [reflexivity|..];
    cbn [NilEmpty.string_of_uint list_ascii_of_string GoFmt.parseDigits
         Nat.of_uint_acc];
    rewrite <- IH, Nat.tail_mul_spec;
    match goal with
    | |- context [GoFmt.digitValue ?c] =>
        let v := eval vm_compute in (GoFmt.digitValue c) in
        change (GoFmt.digitValue c) with v
    end;
    cbv iota; f_equal; lia.
Qed.

Lemma decimal_digits (d : Decimal.uint) :
  Forall (fun c => GoFmt.isDigitOrUnderscore c = true
                   /\ startsNoRune spaceRunes c = true
                   /\ Ascii.eqb c "010" = false
                   /\ Ascii.eqb c "-" = false /\ Ascii.eqb c "+" = false)
         (chars (NilEmpty.string_of_uint d)).
Proof.
  induction d; simpl; constructor; try done; by vm_compute.
Qed.

Lemma takeToken_all (s : list ascii) :
  Forall (fun c => GoFmt.isDigitOrUnderscore c = true) s ->
  GoFmt.takeToken s = s.
Proof.
  induction 1 as [|c s Hc Hs IH]; [reflexivity|]. simpl. by rewrite Hc, IH.
Qed.

(** [Sscanf] reads back what [%d] writes, within the 64-bit range. *)
Lemma SscanfInt_formatInt (n : nat) :
  Z.of_nat n <= GoFmt.maxInt64 -> GoFmt.SscanfInt (formatInt n) = Z.of_nat n.
Proof.
  intros Hmax. unfold formatInt, NilZero.string_of_uint.
  pose proof (DecimalNat.Unsigned.of_to n) as Hn. unfold Nat.of_uint in Hn.
  pose proof (parseDigits_decimal (Nat.to_uint n) 0) as Hparse.
  pose proof (decimal_digits (Nat.to_uint n)) as Hdigits.
  rewrite Hn in Hparse. change (Z.of_nat 0) with 0 in Hparse.
  destruct (Nat.to_uint n) as [|d|d|d|d|d|d|d|d|d|d] eqn:Hd;
    [by (simpl in Hn; subst n)|..];
    unfold GoFmt.SscanfInt;
    set (s := chars (NilEmpty.string_of_uint _)) in *;
    (destruct s as [|c rest] eqn:Hs; [discriminate|]);
    apply Forall_cons in Hdigits
      as [(Hdig & Hrune & Hnl & Hminus & Hplus) Hrest];
    cbn [List.length GoFmt.skipSpace]; rewrite Hnl, stripOneOf_stop by done;
    rewrite Hminus, Hplus;
    (rewrite takeToken_all
       by (constructor; [done|];
           eapply Forall_impl; [exact Hrest|]; by intros ? (? & _)));
    rewrite Hparse;
    (destruct (Z.leb_spec GoFmt.minInt64 (Z.of_nat n)) as [_|Hlo];
       [|unfold GoFmt.minInt64 in Hlo; lia]);
    (destruct (Z.leb_spec (Z.of_nat n) GoFmt.maxInt64) as [_|Hhi]; [|lia]);
    reflexivity.
Qed.

(** The mask that [extractCIDRMask] reads is the number written after
    the "/", and an entry with a written mask is left as it is by
    [normalizeCIDR]. *)
Lemma extractCIDRMask_written (addr opts : string) (n : nat) :
  ~ In ","%char (chars addr) -> ~ In "/"%char (chars addr) ->
  opts = "" \/ (exists o, opts = "," +:+ o) ->
  Z.of_nat n <= GoFmt.maxInt64 ->
  extractCIDRMask ((addr +:+ "/" +:+ formatInt n) +:+ opts) = Z.of_nat n
  /\ normalizeCIDR ((addr +:+ "/" +:+ formatInt n) +:+ opts)
     = (addr +:+ "/" +:+ formatInt n) +:+ opts.
Proof.
  intros Hcomma Hslash Hopts Hmax.
  assert (~ In ","%char (chars (formatInt n))) as Hfmt.
  { unfold formatInt, NilZero.string_of_uint. intros Hin.
    assert (forall d, ~ In ","%char (chars (NilEmpty.string_of_uint d))) as Hd.
    { intros d Hd. pose proof (decimal_digits d) as Hall.
      rewrite List.Forall_forall in Hall.
      destruct (Hall _ Hd) as (Hdig & _). by vm_compute in Hdig. }
    destruct (Nat.to_uint n); try (by apply Hd in Hin).
    simpl in Hin. destruct Hin as [?|[]]; discriminate. }
  assert (~ In ","%char (chars (addr +:+ "/" +:+ formatInt n))) as Hwhole.
  { rewrite chars_app. intros Hin. apply in_app_or in Hin as [Hin|Hin];
      [done|]. change ("/" +:+ formatInt n) with (String "/" (formatInt n)) in Hin.
    simpl in Hin. destruct Hin as [?|Hin]; [discriminate|done]. }
  split.
  - rewrite extractCIDRMask_app by done.
    unfold extractCIDRMask. cbv zeta. rewrite Split_no_sep by done.
    cbn [nth]. change ("/" +:+ formatInt n) with (String "/" (formatInt n)).
    rewrite Index_first_char by done.
    destruct (Z.eqb_spec (Z.of_nat (String.length addr)) (-1)); [lia|].
    cbn [negb].
    replace (Z.to_nat (Z.of_nat (String.length addr) + 1))
      with (String.length (addr +:+ "/")).
    + change (String "/" (formatInt n)) with ("/" +:+ formatInt n).
      rewrite <- app_assoc_string, sliceFrom_app.
      by apply SscanfInt_formatInt.
    + clear. induction addr as [|x a IH]; [reflexivity|].
      rewrite app_cons. cbn [String.length]. rewrite IH. lia.
  - rewrite normalizeCIDR_spec by done.
    assert (Contains (addr +:+ "/" +:+ formatInt n) "/" = true) as ->; [|done].
    apply Contains_char. rewrite chars_app. apply in_or_app. right. by left.
Qed.

(** X24: the mask length of an entry written as address, "/", and a mask
    in decimal is that number, options or not: the sort of the IP-CIDR
    families reads back what was written, up to the largest 64-bit
    integer. *)
Theorem extractCIDRMask_reads_the_written_mask (addr opts : string) (n : nat) :
  ~ In ","%char (chars addr) -> ~ In "/"%char (chars addr) ->
  opts = "" \/ (exists o, opts = "," +:+ o) ->
  Z.of_nat n <= GoFmt.maxInt64 ->
  extractCIDRMask ((addr +:+ "/" +:+ formatInt n) +:+ opts) = Z.of_nat n
  /\ normalizeCIDR ((addr +:+ "/" +:+ formatInt n) +:+ opts)
     = (addr +:+ "/" +:+ formatInt n) +:+ opts.
Proof. exact (extractCIDRMask_written addr opts n). Qed.

(** C6: for the IP-CIDR families [Deduplicate] first normalizes each
    entry (no "/" in the address, the text before the first comma: "/32"
    is appended to the address when it has no ":" and "/128" when it has
    one, the comma-options staying behind it; an address with a "/" is
    left as it is), then sorts by mask length, longest first, entries of
    equal mask length in lexicographic order.  The mask length is the
    number written after the "/".  The sequence left under the type holds
    the normalized distinct entries, in that order: the five entries
    "10.0.0.0/8", "8.8.8.0/24", "1.2.3.0/24", "1.2.3.4", "::1" come out as
    "::1/128", "1.2.3.4/32", "1.2.3.0/24", "8.8.8.0/24", "10.0.0.0/8",
    whatever the order in which the map is visited. *)
Theorem Deduplicate_cidr_normalizes_then_sorts :
  (forall addr opts,
     ~ In ","%char (chars addr) ->
     opts = "" \/ (exists o, opts = "," +:+ o) ->
     normalizeCIDR (addr +:+ opts) =
     if Contains addr "/" then addr +:+ opts
     else if Contains addr ":" then addr +:+ "/128" +:+ opts
     else addr +:+ "/32" +:+ opts)
  /\ normalizeCIDR "1.2.3.4" = "1.2.3.4/32"
  /\ normalizeCIDR "::1" = "::1/128"
  /\ normalizeCIDR "10.0.0.0/8" = "10.0.0.0/8"
  /\ (forall (iter : MapIteration) (o : Optimizer) (name : string)
             (ruleSet : RuleSet) (ruleType : RuleType) (rules : list string),
        isOneOf ruleType cidrFamily = true ->
        ruleSets o !! name = Some ruleSet ->
        Rules ruleSet !! ruleType = Some rules ->
        exists ruleSet' out,
          ruleSets (Deduplicate iter o) !! name = Some ruleSet'
          /\ Rules ruleSet' !! ruleType = Some out
          /\ out ≡ₚ List.map normalizeCIDR
                      (elements (list_to_set rules : gset string))
          /\ StronglySorted cidrOrdered out)
  /\ (forall (addr opts : string) (n : nat),
        ~ In ","%char (chars addr) -> ~ In "/"%char (chars addr) ->
        opts = "" \/ (exists o, opts = "," +:+ o) ->
        Z.of_nat n <= GoFmt.maxInt64 ->
        extractCIDRMask ((addr +:+ "/" +:+ formatInt n) +:+ opts) = Z.of_nat n)
  /\ (forall (iter : MapIteration) (ruleType : RuleType),
        isOneOf ruleType cidrFamily = true ->
        dedupRules iter ruleType
          ["10.0.0.0/8"; "8.8.8.0/24"; "1.2.3.0/24"; "1.2.3.4"; "::1"]
        = ["::1/128"; "1.2.3.4/32"; "1.2.3.0/24"; "8.8.8.0/24"; "10.0.0.0/8"]).
Proof.
  split; [exact normalizeCIDR_spec|].
  repeat (split; [reflexivity|]).
  split; [|split].
  - intros iter o name ruleSet ruleType rules Hty Hrs Hrules.
    destruct (Deduplicate_lookup iter o name ruleSet ruleType rules Hrs Hrules)
      as [H1 H2].
    eexists _, _. split; [exact H1|]. split; [exact H2|].
    unfold dedupRules. cbv zeta. rewrite sortRulesByType_cidr by done. split.
    + rewrite Slice_perm. apply Permutation_map, rangeKeys_perm.
    + eapply StronglySorted_weaken; [intros a b; apply cidrLess_ordered|].
      apply Slice_sorted; [apply cidrLess_asym|apply cidrLess_ntrans].
  - intros addr opts n Hcomma Hslash Hopts Hmax.
    exact (proj1 (extractCIDRMask_written addr opts n Hcomma Hslash Hopts Hmax)).
  - intros iter ruleType Hty.
    unfold dedupRules. cbv zeta. rewrite sortRulesByType_cidr by done.
    apply (Slice_unique cidrLess cidrLess_asym cidrLess_ntrans cidrLess_total).
    + repeat (apply SSorted_cons; [|repeat (apply List.Forall_cons; [reflexivity|]);
                                    apply List.Forall_nil]).
      apply SSorted_nil.
    + rewrite rangeKeys_perm, elements_list_to_set.
      * exact (Permutation_sym
                 (Permutation_rev
                    ["10.0.0.0/8"; "8.8.8.0/24"; "1.2.3.0/24"; "1.2.3.4/32";
                     "::1/128"])).
      * apply (bool_decide_unpack _). vm_compute. exact I.
Qed.

End Engine.

(** ** Concrete instances *)

(** C3, as stated, fails on the line ",": it has one comma and two empty
    parts, and [ParseRule] returns a rule, for any Unicode case mapping. *)
Lemma ParseRule_comma_line_is_not_malformed :
  GoStrings.Contains "," "," = true
  /\ Forall (fun p => p = "") (GoStrings.Split "," ",")
  /\ forall (toUpper : string -> string) (msg : string),
       ParseRule toUpper "," = Parsed {| Type_ := ""; Payload := ""; Options := "" |}
       /\ ParseRule toUpper "," <> MalformedLineError msg.
Proof.
  split; [reflexivity|]. split; [repeat constructor|].
  intros toUpper msg. split; [reflexivity|discriminate].
Qed.

Lemma ParseRule_empty_parts_is_rule_witness :
  GoStrings.Contains ",," "," = true
  /\ Forall (fun p => p = "") (GoStrings.Split ",," ",")
  /\ ParseRule (fun s => s) ",,"
     = Parsed {| Type_ := ""; Payload := ""; Options := "" |}.
Proof.
  split; [reflexivity|]. split; [repeat constructor|].
  apply (ParseRule_empty_parts_is_rule (fun s => s) ",,");
    [reflexivity|repeat constructor].
Defined.

(** C5, as stated, fails on the line "FOO,bar": the rule returned has the
    type "FOO", which is none of the kinds of the vocabulary. *)
Lemma ParseRule_accepts_unknown_type :
  (forall toUpper : string -> string,
     ParseRule toUpper "FOO,bar"
     = Parsed {| Type_ := "FOO"; Payload := "bar"; Options := "" |})
  /\ ~ In "FOO" ruleTypeVocabulary.
Proof.
  split; [reflexivity|]. vm_compute. intuition discriminate.
Qed.

Lemma ParseRule_type_is_first_field_witness :
  ParseRule (fun s => s) " - ip-cidr , 1.2.3.4 ,no-resolve"
  = Parsed {| Type_ := "IP-CIDR"; Payload := "1.2.3.4"; Options := "no-resolve" |}
  /\ exists stripped first rest,
       stripLine " - ip-cidr , 1.2.3.4 ,no-resolve" = Some stripped
       /\ stripped = first +:+ "," +:+ rest
       /\ ~ In ","%char (list_ascii_of_string first)
       /\ "IP-CIDR" = GoStrings.ToUpper (fun s => s) (GoStrings.TrimSpace first).
Proof.
  split; [reflexivity|].
  apply (ParseRule_type_is_first_field (fun s => s)
           " - ip-cidr , 1.2.3.4 ,no-resolve"
           {| Type_ := "IP-CIDR"; Payload := "1.2.3.4"; Options := "no-resolve" |}).
  reflexivity.
Defined.

Lemma Deduplicate_cidr_normalizes_then_sorts_witness :
  normalizeCIDR ("1.2.3.4" +:+ ",no-resolve") = "1.2.3.4/32,no-resolve"
  /\ (exists ruleSet' out,
        ruleSets
          (Deduplicate (fun s => s) canonicalIteration
             {| ruleSets :=
                  {[ "test" := mkRuleSet "test"
                                 {[ RuleTypeIPCIDR := ["10.0.0.0/8"; "::1"; "1.2.3.4"] ]}
                                 [] [] ]} |})
          !! "test" = Some ruleSet'
        /\ Rules ruleSet' !! RuleTypeIPCIDR = Some out
        /\ out ≡ₚ List.map normalizeCIDR
                   (elements (list_to_set ["10.0.0.0/8"; "::1"; "1.2.3.4"]
                              : gset string))
        /\ StronglySorted cidrOrdered out)
  /\ extractCIDRMask "10.0.0.0/8,no-resolve" = 8
  /\ dedupRules (fun s => s) reversedIteration RuleTypeIPCIDR
       ["10.0.0.0/8"; "8.8.8.0/24"; "1.2.3.0/24"; "1.2.3.4"; "::1"]
     = ["::1/128"; "1.2.3.4/32"; "1.2.3.0/24"; "8.8.8.0/24"; "10.0.0.0/8"].
Proof.
  pose proof (Deduplicate_cidr_normalizes_then_sorts (fun s => s))
    as (Hnorm & _ & _ & _ & Hsort & Hmask & Hexample).
  split; [|split; [|split]].
  - rewrite (Hnorm "1.2.3.4" ",no-resolve");
      [reflexivity|vm_compute; intuition discriminate|right; by exists "no-resolve"].
  - apply (Hsort canonicalIteration _ "test"
             (mkRuleSet "test"
                {[ RuleTypeIPCIDR := ["10.0.0.0/8"; "::1"; "1.2.3.4"] ]} [] [])
             RuleTypeIPCIDR ["10.0.0.0/8"; "::1"; "1.2.3.4"]);
      reflexivity.
  - apply (Hmask "10.0.0.0" ",no-resolve" 8%nat).
    + vm_compute. intuition discriminate.
    + vm_compute. intuition discriminate.
    + right. by exists "no-resolve".
    + vm_compute. discriminate.
  - apply (Hexample reversedIteration RuleTypeIPCIDR). reflexivity.
Defined.

Lemma applyRuleFilters_whitelist_then_blacklist_witness :
  (forall name, name <> "" -> literalMatch "" name <> Matched)
  /\ applyRuleFilters literalMatch ["a.com"; "b.com"; "c.com"] RuleTypeDomain
       ["DOMAIN,a.com"; ""; "DOMAIN,b.com"] ["DOMAIN,b.com"]
     = List.filter
         (survives literalMatch RuleTypeDomain
            ["DOMAIN,a.com"; ""; "DOMAIN,b.com"] ["DOMAIN,b.com"])
         ["a.com"; "b.com"; "c.com"]
  /\ ~ In "b.com"
         (applyRuleFilters literalMatch ["a.com"; "b.com"; "c.com"] RuleTypeDomain
            ["DOMAIN,a.com"; ""; "DOMAIN,b.com"] ["DOMAIN,b.com"])
  /\ applyRuleFilters literalMatch ["a.com"; "b.com"; "c.com"] RuleTypeDomain
       ["DOMAIN,a.com"; ""; "DOMAIN,b.com"] ["DOMAIN,b.com"]
     = ["a.com"]
  /\ applyRuleFilters literalMatch ["a.com"] RuleTypeDomain ["DOMAIN,a.com"] []
     = ["a.com"]
  /\ applyRuleFilters literalMatch ["a.com"] RuleTypeDomain ["a.com"] []
     = [].
Proof.
  assert (forall name, name <> "" -> literalMatch "" name <> Matched) as Hempty.
  { intros name Hne. unfold literalMatch.
    destruct (String.eqb_spec "" name); congruence. }
  split; [exact Hempty|].
  destruct (applyRuleFilters_whitelist_then_blacklist literalMatch Hempty
              ["a.com"; "b.com"; "c.com"] RuleTypeDomain
              ["DOMAIN,a.com"; ""; "DOMAIN,b.com"] ["DOMAIN,b.com"])
    as (Heq & _ & Hprec & Hone & _).
  split; [exact Heq|]. split; [|split; [|split]].
  - apply (Hprec "b.com" "DOMAIN,b.com" "DOMAIN,b.com");
      [right; right; left; reflexivity|left; reflexivity
      |reflexivity|reflexivity].
  - rewrite Heq. reflexivity.
  - rewrite (Hone "a.com" "DOMAIN,a.com"). reflexivity.
  - rewrite (Hone "a.com" "a.com"). reflexivity.
Defined.

Lemma domainSuffixEntry_total_idempotent_witness :
  GoStrings.HasPrefix "x.com" "+." = false
  /\ GoStrings.HasPrefix "x.com" "." = false
  /\ domainSuffixEntry "x.com" = "+." +:+ "x.com"
  /\ domainSuffixEntry (domainSuffixEntry "x.com") = domainSuffixEntry "x.com".
Proof.
  destruct (domainSuffixEntry_total_idempotent "x.com")
    as (_ & _ & Hother & _ & Hidem & _).
  split; [reflexivity|]. split; [reflexivity|].
  split; [apply Hother; reflexivity|exact Hidem].
Defined.



Lemma applyRuleFilters_only_empty_filters_witness :
  [""; ""] <> ([] : list string)
  /\ Forall (fun p => p = "") [""; ""]
  /\ applyRuleFilters literalMatch ["a.com"; "b.com"] RuleTypeDomain
       [""; ""] []
     = [].
Proof.
  split; [discriminate|]. split; [repeat constructor|].
  apply (applyRuleFilters_only_empty_filters literalMatch);
    [discriminate|repeat constructor].
Defined.

(** *** Instances of the further properties *)

Lemma ParseRule_skips_line_without_comma_witness :
  GoStrings.Contains "example.com" "," = false
  /\ ParseRule (fun s => s) "example.com" = Skip.
Proof.
  split; [reflexivity|].
  apply (ParseRule_skips_line_without_comma (fun s => s) "example.com").
  reflexivity.
Defined.

Lemma ParseRule_fields_have_no_comma_witness :
  ParseRule (fun s => s) "IP-CIDR,1.2.3.4,no-resolve,extra"
  = Parsed {| Type_ := "IP-CIDR"; Payload := "1.2.3.4"; Options := "no-resolve" |}
  /\ ~ In ","%char (list_ascii_of_string "1.2.3.4")
  /\ ~ In ","%char (list_ascii_of_string "no-resolve").
Proof.
  split; [reflexivity|].
  destruct (ParseRule_fields_have_no_comma (fun s => s)
              "IP-CIDR,1.2.3.4,no-resolve,extra"
              {| Type_ := "IP-CIDR"; Payload := "1.2.3.4"; Options := "no-resolve" |}
              eq_refl)
    as (Hpayload & Hoptions & _).
  split; [exact Hpayload|exact Hoptions].
Defined.

Lemma LoadRuleFile_appends_witness :
  LoadRuleFile (fun s => s) sampleFiles "b.txt" "test"
    (storeOf RuleTypeDomain ["a.com"])
  = Some (storeOf RuleTypeDomain ["a.com"; "b.com"])
  /\ ruleSets (storeOf RuleTypeDomain ["a.com"; "b.com"]) !! "other"
     = ruleSets (storeOf RuleTypeDomain ["a.com"]) !! "other".
Proof.
  assert (LoadRuleFile (fun s => s) sampleFiles "b.txt" "test"
            (storeOf RuleTypeDomain ["a.com"])
          = Some (storeOf RuleTypeDomain ["a.com"; "b.com"])) as Hload.
  { vm_compute. reflexivity. }
  split; [exact Hload|].
  apply (proj1 (LoadRuleFile_appends (fun s => s) sampleFiles "b.txt" "test"
                  _ _ Hload) "other").
  discriminate.
Defined.

Lemma LoadRuleFile_composes_witness :
  LoadRuleFile (fun s => s) sampleFiles "a.txt" "test" NewOptimizer
    ≫= LoadRuleFile (fun s => s) sampleFiles "b.txt" "test"
  = LoadRuleFile (fun s => s) sampleFiles "ab.txt" "test" NewOptimizer.
Proof.
  assert (sampleFiles !! "a.txt" = Some ["DOMAIN,a.com"]) as Ha
    by (vm_compute; reflexivity).
  assert (sampleFiles !! "b.txt" = Some ["DOMAIN,b.com"]) as Hb
    by (vm_compute; reflexivity).
  apply (proj1 (LoadRuleFile_composes (fun s => s) sampleFiles "a.txt" "b.txt"
                  ["DOMAIN,a.com"] ["DOMAIN,b.com"] NewOptimizer Ha Hb)
           "test" "ab.txt").
  vm_compute. reflexivity.
Defined.

Lemma SetRulesetFilters_replaces_witness :
  SetRulesetFilters "missing" ["DOMAIN,*"] []
    (storeOf RuleTypeDomain ["a.com"]) = None
  /\ SetRulesetFilters "test" ["DOMAIN,*"] []
       {| ruleSets :=
            {[ "test" := mkRuleSet "test" {[ RuleTypeDomain := ["a.com"] ]}
                           ["old"] ["older"] ]} |}
     = SetRulesetFilters "test" ["DOMAIN,*"] []
         (storeOf RuleTypeDomain ["a.com"]).
Proof.
  destruct (SetRulesetFilters_replaces "missing" ["DOMAIN,*"] []
              (storeOf RuleTypeDomain ["a.com"])) as (Hnone & _ & _).
  destruct (SetRulesetFilters_replaces "test" ["DOMAIN,*"] []
              (storeOf RuleTypeDomain ["a.com"])) as (_ & _ & Hlast).
  split.
  - apply Hnone. vm_compute. reflexivity.
  - apply (Hlast ["old"] ["older"]). vm_compute. reflexivity.
Defined.

Lemma SetRulesetFilters_commutes_with_load_witness :
  LoadRuleFile (fun s => s) sampleFiles "b.txt" "test"
    (storeOf RuleTypeDomain ["a.com"])
    ≫= SetRulesetFilters "test" ["DOMAIN,*"] []
  = SetRulesetFilters "test" ["DOMAIN,*"] [] (storeOf RuleTypeDomain ["a.com"])
      ≫= LoadRuleFile (fun s => s) sampleFiles "b.txt" "test".
Proof.
  apply (SetRulesetFilters_commutes_with_load (fun s => s) sampleFiles
           "b.txt" "test" ["DOMAIN,*"] [] (storeOf RuleTypeDomain ["a.com"])).
  exists (mkRuleSet "test" {[ RuleTypeDomain := ["a.com"] ]} [] []).
  vm_compute. reflexivity.
Defined.

Lemma Deduplicate_keeps_the_distinct_entries_witness :
  exists ruleSet' out,
    ruleSets
      (Deduplicate (fun s => s) canonicalIteration
         (storeOf RuleTypeGeoIP ["US"; "CN"; "US"]))
      !! "test" = Some ruleSet'
    /\ Rules ruleSet' !! RuleTypeGeoIP = Some out
    /\ NoDup out
    /\ forall entry, In entry out <-> In entry ["US"; "CN"; "US"].
Proof.
  destruct (Deduplicate_keeps_the_distinct_entries (fun s => s)
              canonicalIteration (storeOf RuleTypeGeoIP ["US"; "CN"; "US"])
              "test") as [_ Hsome].
  destruct (Hsome (mkRuleSet "test" {[ RuleTypeGeoIP := ["US"; "CN"; "US"] ]}
                     [] []) eq_refl)
    as (ruleSet' & Hlookup & _ & _ & _ & _ & Hrules).
  destruct (Hrules RuleTypeGeoIP ["US"; "CN"; "US"] eq_refl eq_refl)
    as (out & Hout & Hnodup & Hsame).
  exists ruleSet', out. split; [exact Hlookup|].
  split; [exact Hout|]. split; [exact Hnodup|exact Hsame].
Defined.

Lemma GetStatistics_after_Deduplicate_witness :
  exists before after,
    GetStatistics (storeOf RuleTypeGeoIP ["US"; "CN"; "US"]) !! "test"
    = Some before
    /\ before !! RuleTypeGeoIP
       = Some (Z.of_nat (List.length ["US"; "CN"; "US"]))
    /\ GetStatistics
         (Deduplicate (fun s => s) canonicalIteration
            (storeOf RuleTypeGeoIP ["US"; "CN"; "US"])) !! "test"
       = Some after
    /\ after !! RuleTypeGeoIP
       = Some (Z.of_nat (size (list_to_set ["US"; "CN"; "US"] : gset string)))
    /\ (size (list_to_set ["US"; "CN"; "US"] : gset string)
        <= List.length ["US"; "CN"; "US"])%nat.
Proof.
  apply (GetStatistics_after_Deduplicate (fun s => s) canonicalIteration
           (storeOf RuleTypeGeoIP ["US"; "CN"; "US"]) "test"
           (mkRuleSet "test" {[ RuleTypeGeoIP := ["US"; "CN"; "US"] ]} [] [])
           RuleTypeGeoIP ["US"; "CN"; "US"]);
    reflexivity.
Defined.

Lemma Deduplicate_sorts_by_length_witness :
  exists ruleSet' out,
    ruleSets
      (Deduplicate (fun s => s) canonicalIteration
         (storeOf RuleTypeDomain ["bb.com"; "a.com"; "c.com"]))
      !! "test" = Some ruleSet'
    /\ Rules ruleSet' !! RuleTypeDomain = Some out
    /\ StronglySorted lengthOrdered out.
Proof.
  apply (Deduplicate_sorts_by_length (fun s => s) canonicalIteration
           (storeOf RuleTypeDomain ["bb.com"; "a.com"; "c.com"]) "test"
           (mkRuleSet "test"
              {[ RuleTypeDomain := ["bb.com"; "a.com"; "c.com"] ]} [] [])
           RuleTypeDomain ["bb.com"; "a.com"; "c.com"]);
    reflexivity.
Defined.

Lemma Deduplicate_sorts_domain_suffixes_witness :
  exists ruleSet' out,
    ruleSets
      (Deduplicate (fun s => s) canonicalIteration
         (storeOf RuleTypeDomainSuffix ["example.com"; "cn"; "a"]))
      !! "test" = Some ruleSet'
    /\ Rules ruleSet' !! RuleTypeDomainSuffix = Some out
    /\ StronglySorted suffixOrdered out.
Proof.
  apply (Deduplicate_sorts_domain_suffixes (fun s => s) canonicalIteration
           (storeOf RuleTypeDomainSuffix ["example.com"; "cn"; "a"]) "test"
           (mkRuleSet "test"
              {[ RuleTypeDomainSuffix := ["example.com"; "cn"; "a"] ]} [] [])
           ["example.com"; "cn"; "a"]);
    reflexivity.
Defined.

Lemma Deduplicate_sorts_lexicographically_witness :
  exists ruleSet' out,
    ruleSets
      (Deduplicate (fun s => s) canonicalIteration
         (storeOf RuleTypeGeoIP ["US"; "CN"; "US"]))
      !! "test" = Some ruleSet'
    /\ Rules ruleSet' !! RuleTypeGeoIP = Some out
    /\ StronglySorted (fun a b => String.leb a b = true) out.
Proof.
  apply (Deduplicate_sorts_lexicographically (fun s => s) canonicalIteration
           (storeOf RuleTypeGeoIP ["US"; "CN"; "US"]) "test"
           (mkRuleSet "test" {[ RuleTypeGeoIP := ["US"; "CN"; "US"] ]} [] [])
           RuleTypeGeoIP ["US"; "CN"; "US"]);
    reflexivity.
Defined.

Lemma Deduplicate_sorts_asn_as_strings_witness :
  exists ruleSet' out,
    ruleSets
      (Deduplicate (fun s => s) canonicalIteration
         (storeOf RuleTypeIPASN ["AS9"; "AS10"; "13335"]))
      !! "test" = Some ruleSet'
    /\ Rules ruleSet' !! RuleTypeIPASN = Some out
    /\ out ≡ₚ elements (list_to_set ["AS9"; "AS10"; "13335"] : gset string)
    /\ StronglySorted
         (fun a b =>
            String.ltb (GoStrings.TrimPrefix b "AS") (GoStrings.TrimPrefix a "AS")
            = false)
         out.
Proof.
  destruct (Deduplicate_sorts_asn_as_strings (fun s => s))
    as (_ & _ & Hsort & _).
  apply (Hsort canonicalIteration
           (storeOf RuleTypeIPASN ["AS9"; "AS10"; "13335"]) "test"
           (mkRuleSet "test"
              {[ RuleTypeIPASN := ["AS9"; "AS10"; "13335"] ]} [] [])
           RuleTypeIPASN ["AS9"; "AS10"; "13335"]);
    reflexivity.
Defined.

Lemma stripNoResolve_removes_every_no_resolve_witness :
  ~ In ","%char (list_ascii_of_string "1.2.3.0/24")
  /\ stripNoResolve ("1.2.3.0/24" +:+ ",no-resolve") = "1.2.3.0/24".
Proof.
  assert (~ In ","%char (list_ascii_of_string "1.2.3.0/24")) as Hcomma.
  { vm_compute. intuition discriminate. }
  split; [exact Hcomma|].
  destruct (stripNoResolve_removes_every_no_resolve "1.2.3.0/24")
    as (_ & _ & _ & Hstrip).
  apply (Hstrip "1.2.3.0/24" Hcomma). vm_compute. discriminate.
Defined.


Lemma exportClassical_leaves_out_the_dialect_kinds_witness :
  exportClassical literalMatch
    (mkRuleSet (Name exampleStored)
       (<[RuleTypeDomain := ["x.com"]]> (Rules exampleStored))
       (Filters exampleStored) (Excludes exampleStored))
    false true
  = exportClassical literalMatch exampleStored false true.
Proof.
  apply (proj1 (exportClassical_leaves_out_the_dialect_kinds literalMatch
                  exampleStored RuleTypeDomain ["x.com"])).
  reflexivity.
Defined.

Lemma dialect_files_read_their_kinds_only_witness :
  exportDomain literalMatch
    (mkRuleSet (Name exampleStored)
       (<[RuleTypeDomainKeyword := ["x"]]> (Rules exampleStored))
       (Filters exampleStored) (Excludes exampleStored))
  = exportDomain literalMatch exampleStored.
Proof.
  apply (proj1 (dialect_files_read_their_kinds_only literalMatch
                  exampleStored RuleTypeDomainKeyword ["x"])).
  reflexivity.
Defined.


Lemma empty_rule_set_exports_placeholders_witness :
  Rules (freshRuleSet "test") = ∅
  /\ exportDomain literalMatch (freshRuleSet "test")
     = {| yamlFile := placeholder +:+ LF +:+ "payload: []" +:+ LF;
          listFile := placeholder +:+ LF |}.
Proof.
  split; [reflexivity|].
  apply (empty_rule_set_exports_placeholders literalMatch (freshRuleSet "test")).
  reflexivity.
Defined.

Lemma LoadRuleFile_stores_at_most_one_comma_witness :
  entriesHold atMostOneComma (storeOf RuleTypeDomain ["a.com"]).
Proof.
  destruct (LoadRuleFile_stores_at_most_one_comma (fun s => s))
    as [Hnew Hstep].
  apply (Hstep sampleFiles "a.txt" "test" NewOptimizer
           (storeOf RuleTypeDomain ["a.com"]) Hnew).
  vm_compute. reflexivity.
Defined.

Lemma processRulesets_ignores_the_visiting_order_witness :
  processRulesets (fun s => s) (fun s => s) literalMatch canonicalIteration
    sampleFiles [("one", ["a.txt"]); ("two", ["b.txt"])]
    [("one", (["DOMAIN,*"], [])); ("two", ([], ["DOMAIN,b.com"]))]
  = processRulesets (fun s => s) (fun s => s) literalMatch canonicalIteration
      sampleFiles [("two", ["b.txt"]); ("one", ["a.txt"])]
      [("two", ([], ["DOMAIN,b.com"])); ("one", (["DOMAIN,*"], []))].
Proof.
  apply (processRulesets_ignores_the_visiting_order (fun s => s) (fun s => s)
           literalMatch canonicalIteration sampleFiles).
  - apply (bool_decide_unpack _). vm_compute. exact I.
  - apply perm_swap.
  - apply (bool_decide_unpack _). vm_compute. exact I.
  - apply perm_swap.
Defined.

Lemma processRulesets_skips_failures_witness :
  sampleFiles !! "missing.txt" = None
  /\ loadRulesetFiles (fun s => s) sampleFiles NewOptimizer
       ("test", ["a.txt"] ++ "missing.txt" :: ["b.txt"])
     = loadRulesetFiles (fun s => s) sampleFiles NewOptimizer
         ("test", ["a.txt"] ++ ["b.txt"]).
Proof.
  assert (sampleFiles !! "missing.txt" = None) as Hmissing
    by (vm_compute; reflexivity).
  split; [exact Hmissing|].
  apply (proj1 (processRulesets_skips_failures (fun s => s) sampleFiles
                  NewOptimizer) "test" ["a.txt"] "missing.txt" ["b.txt"]
           Hmissing).
Defined.

Lemma extractCIDRMask_reads_the_written_mask_witness :
  extractCIDRMask (("10.0.0.0" +:+ "/" +:+ formatInt 8) +:+ ",no-resolve")
  = Z.of_nat 8
  /\ normalizeCIDR (("10.0.0.0" +:+ "/" +:+ formatInt 8) +:+ ",no-resolve")
     = ("10.0.0.0" +:+ "/" +:+ formatInt 8) +:+ ",no-resolve".
Proof.
  apply (extractCIDRMask_reads_the_written_mask "10.0.0.0" ",no-resolve" 8).
  - vm_compute. intuition discriminate.
  - vm_compute. intuition discriminate.
  - right. exists "no-resolve". reflexivity.
  - vm_compute. discriminate.
Defined.

Lemma Deduplicate_idempotent_total_order_witness :
  Deduplicate (fun s => s) reversedIteration
    (Deduplicate (fun s => s) canonicalIteration
       (storeOf RuleTypeDomain ["bb.com"; "a.com"; "c.com"; "a.com"]))
  = Deduplicate (fun s => s) canonicalIteration
      (storeOf RuleTypeDomain ["bb.com"; "a.com"; "c.com"; "a.com"]).
Proof.
  apply (Deduplicate_idempotent_total_order (fun s => s) canonicalIteration
           reversedIteration).
  intros name ruleSet ruleType rules Hset Hrules.
  unfold storeOf in Hset. cbn [ruleSets] in Hset.
  apply lookup_singleton_Some in Hset as [_ <-].
  cbn [Rules] in Hrules.
  apply lookup_singleton_Some in Hrules as [<- _].
  reflexivity.
Defined.
